(** * Metrics of the VPA Recommender

    A shallow embedding of
    [vertical-pod-autoscaler/pkg/utils/metrics/recommender/recommender.go]:
    the bucket counter of VPA objects ([ObjectCounter]), the conversion of a
    resource quantity to a gauge value ([toFloat64]) and the export of the
    container recommendations ([ObserveVPARecommendation]).

    The registration of the metrics and the two timers, which read the
    wall clock, are left out.

    The file has three parts: the embedding of the source, the notions in
    which the properties are stated, and the properties with their proofs. *)

From Stdlib Require Import ZArith Lia SpecFloat.
From stdpp Require Import base option list strings gmap fin_maps.

Local Open Scope Z_scope.
Local Open Scope string_scope.
Local Open Scope list_scope.

(** * Part I: the source *)

(** ** Go's machine numbers *)

(** [int] and [int64] are 64-bit two's complement integers on the platforms
    the recommender is built for; arithmetic on them wraps silently. *)
Module GoInt.

Definition MinInt : Z := - 2 ^ 63.
Definition MaxInt : Z := 2 ^ 63 - 1.

Definition in_range (z : Z) : Prop := MinInt <= z <= MaxInt.

Definition wrap (z : Z) : Z := (z - MinInt) mod 2 ^ 64 + MinInt.

(** [x++] *)
Definition incr (x : Z) : Z := wrap (x + 1).

End GoInt.

(** [float64] is IEEE 754 binary64: 53 bits of precision, infinities at
    exponent 1024.  The operations are those of the standard library's
    executable specification of floating-point arithmetic, which rounds to
    nearest, ties to even. *)
Module Float64.

Definition prec : Z := 53.
Definition emax : Z := 1024.

Definition float64 : Type := spec_float.

(** The conversion [float64(v)] of an integer. *)
Definition of_int (v : Z) : float64 := binary_normalize prec emax v 0 false.

(** [x * y] *)
Definition mul (x y : float64) : float64 := SFmul prec emax x y.

(** [x / y] *)
Definition div (x y : float64) : float64 := SFdiv prec emax x y.

(** [x <= y] *)
Definition leb (x y : float64) : bool := SFleb x y.

(** The constant [0.001] as a [float64]: the double nearest to 1/1000,
    [0x1.0624dd2f1a9fcp-10]. *)
Definition milli : float64 := S754_finite false 4611686018427388 (-62).

End Float64.

Abbreviation float64 := Float64.float64.

(** ** The collaborators *)

(** [resource.Quantity] belongs to the Kubernetes API machinery.  The
    recommender reads a quantity through two accessors only, both returning
    an [int64]: [Value()], the amount in whole units, and [MilliValue()],
    the amount in thousandths. *)
Class QuantityOps (Q : Type) := {
  Value : Q -> Z;
  MilliValue : Q -> Z;
}.

(** The order of quantities ([q1.Cmp(q2) < 0]).  Both accessors return an
    [int64] and round the amount to an integer, the same way for every
    quantity, so that a smaller quantity never reads larger. *)
Class QuantityOrder (Q : Type) `{QuantityOps Q} := {
  Less : Q -> Q -> Prop;
  Value_int64 : forall q, GoInt.in_range (Value q);
  MilliValue_int64 : forall q, GoInt.in_range (MilliValue q);
  Value_mono : forall q1 q2, Less q1 q2 -> Value q1 <= Value q2;
  MilliValue_mono : forall q1 q2, Less q1 q2 -> MilliValue q1 <= MilliValue q2;
}.

(** The API package [vpa_types] lies outside this file. *)
Module vpa_types.

(** Modelled from the spec: the type of update modes, which are strings. *)
Definition UpdateMode : Type := string.

(** Modelled from the spec: the recognised mode Off. *)
Definition UpdateModeOff : UpdateMode := "Off".

(** Modelled from the spec: the recognised mode Initial. *)
Definition UpdateModeInitial : UpdateMode := "Initial".

(** Modelled from the spec: the recognised mode Recreate. *)
Definition UpdateModeRecreate : UpdateMode := "Recreate".

(** Modelled from the spec: the recognised mode Auto. *)
Definition UpdateModeAuto : UpdateMode := "Auto".

(** Modelled from the spec: a band of a recommendation, which holds a CPU
    and a memory quantity, read through [Cpu()] and [Memory()]. *)
Record ResourceList (Q : Type) := {
  Cpu : Q;
  Memory : Q;
}.

(** Modelled from the spec: the recommendation for one container, with its
    three bands. *)
Record RecommendedContainerResources (Q : Type) := {
  ContainerName : string;
  Target : ResourceList Q;
  LowerBound : ResourceList Q;
  UpperBound : ResourceList Q;
}.

(** Modelled from the spec: the recommendation of an object, zero or more
    container recommendations. *)
Record RecommendedPodResources (Q : Type) := {
  ContainerRecommendations : list (RecommendedContainerResources Q);
}.

End vpa_types.

Arguments vpa_types.Cpu {Q} _.
Arguments vpa_types.Memory {Q} _.
Arguments vpa_types.ContainerName {Q} _.
Arguments vpa_types.Target {Q} _.
Arguments vpa_types.LowerBound {Q} _.
Arguments vpa_types.UpperBound {Q} _.
Arguments vpa_types.ContainerRecommendations {Q} _.

(** The package [model] lies outside this file. *)
Module model.

(** Modelled from the spec: the identity of a managed object, a name in a
    namespace. *)
Record VpaID := {
  Namespace : string;
  VpaName : string;
}.

(** Modelled from the spec: the pod selector of an object, of which only
    the string that [String()] prints is read. *)
Record Selector := {
  Selector_String : string;
}.

(** Modelled from the spec: a managed object, with its identity, its pod
    selector, its container recommendations and its update mode, a pointer
    that is nil when the mode is unset. *)
Record Vpa (Q : Type) := {
  ID : VpaID;
  PodSelector : Selector;
  Recommendation : vpa_types.RecommendedPodResources Q;
  UpdateMode : option vpa_types.UpdateMode;
}.

End model.

Arguments model.ID {Q} _.
Arguments model.PodSelector {Q} _.
Arguments model.Recommendation {Q} _.
Arguments model.UpdateMode {Q} _.

(** The gauge vectors of the Prometheus client.  A vector is declared with
    its label names and keeps one value per tuple of label values;
    [WithLabelValues(lvs...)] panics when the number of values differs from
    the number of names, and [Set] overwrites the value of the series.  The
    field [sets] records the calls of [Set], oldest first. *)
Module prometheus.

Record GaugeVec := {
  labelNames : list string;
  series : gmap (list string) float64;
  sets : list (list string * float64);
}.

Definition NewGaugeVec (names : list string) : GaugeVec :=
  {| labelNames := names; series := ∅; sets := [] |}.

(** [g.WithLabelValues(lvs...).Set(v)]; [None] is the panic. *)
Definition WithLabelValues_Set (lvs : list string) (v : float64)
    (g : GaugeVec) : option GaugeVec :=
  if decide (length lvs = length (labelNames g)) then
    Some {| labelNames := labelNames g;
            series := <[lvs := v]> (series g);
            sets := sets g ++ [(lvs, v)] |}
  else None.

End prometheus.

(** [fmt.Sprintf("%v", b)] for a boolean. *)
Definition Sprintf_v (b : bool) : string := if b then "true" else "false".

(** [for _, x := range l { body }] where the body may panic. *)
Fixpoint range_ {A S : Type} (body : A -> S -> option S) (l : list A) (s : S)
    : option S :=
  match l with
  | [] => Some s
  | x :: l' => s' ← body x s; range_ body l' s'
  end.

(** ** The package *)

Definition modes : list string :=
  [vpa_types.UpdateModeOff; vpa_types.UpdateModeInitial;
   vpa_types.UpdateModeRecreate; vpa_types.UpdateModeAuto].

(** The package variables that the functions below write. *)
Record Metrics := {
  vpaContainerRecommendations : prometheus.GaugeVec;
  vpaObjectCount : prometheus.GaugeVec;
}.

Definition initial_metrics : Metrics :=
  {| vpaContainerRecommendations :=
       prometheus.NewGaugeVec
         ["vpa_name"; "namespace"; "pod_selector"; "container";
          "recommendation_type"; "resource_name"];
     vpaObjectCount :=
       prometheus.NewGaugeVec ["update_mode"; "has_recommendation"] |}.

Record objectCounterKey := {
  mode : string;
  has : bool;
}.

#[global] Instance objectCounterKey_eq_dec : EqDecision objectCounterKey.
Proof. solve_decision. Defined.

#[global] Instance objectCounterKey_countable : Countable objectCounterKey.
Proof.
  refine (inj_countable' (fun k => (mode k, has k))
            (fun p => {| mode := p.1; has := p.2 |}) _).
  intros []; reflexivity.
Defined.

(** [ObjectCounter] splits the VPA objects into buckets. *)
Record ObjectCounter := {
  cnt : gmap objectCounterKey Z;
}.

Section Recommender.
Context {Q : Type} `{QuantityOps Q}.

(** [vpa.HasRecommendation()] is a method of [model.Vpa] whose body lies
    outside this file. *)
Variable HasRecommendation : model.Vpa Q -> bool.

Definition toFloat64 (q : Q) : float64 :=
  let v := Value q in
  if bool_decide (v > 10000000) then Float64.of_int v
  else Float64.mul (Float64.of_int (MilliValue q)) Float64.milli.

(** One line of the loop of [ObserveVPARecommendation]. *)
Definition setRecommendation (vpa : model.Vpa Q)
    (r : vpa_types.RecommendedContainerResources Q)
    (recommendation_type resource_name : string) (q : Q) (m : Metrics)
    : option Metrics :=
  g ← prometheus.WithLabelValues_Set
        [model.VpaName (model.ID vpa); model.Namespace (model.ID vpa);
         model.Selector_String (model.PodSelector vpa);
         vpa_types.ContainerName r; recommendation_type; resource_name]
        (toFloat64 q) (vpaContainerRecommendations m);
  Some {| vpaContainerRecommendations := g;
          vpaObjectCount := vpaObjectCount m |}.

Definition observeContainer (vpa : model.Vpa Q)
    (r : vpa_types.RecommendedContainerResources Q) (m : Metrics)
    : option Metrics :=
  m ← setRecommendation vpa r "lower_bound" "cpu"
        (vpa_types.Cpu (vpa_types.LowerBound r)) m;
  m ← setRecommendation vpa r "lower_bound" "memory"
        (vpa_types.Memory (vpa_types.LowerBound r)) m;
  m ← setRecommendation vpa r "target" "cpu"
        (vpa_types.Cpu (vpa_types.Target r)) m;
  m ← setRecommendation vpa r "target" "memory"
        (vpa_types.Memory (vpa_types.Target r)) m;
  m ← setRecommendation vpa r "upper_bound" "cpu"
        (vpa_types.Cpu (vpa_types.UpperBound r)) m;
  setRecommendation vpa r "upper_bound" "memory"
    (vpa_types.Memory (vpa_types.UpperBound r)) m.

Definition ObserveVPARecommendation (vpa : model.Vpa Q) (m : Metrics)
    : option Metrics :=
  range_ (observeContainer vpa)
    (vpa_types.ContainerRecommendations (model.Recommendation vpa)) m.

(** [NewObjectCounter] seeds both buckets of every mode with zero. *)
Definition NewObjectCounter : ObjectCounter :=
  foldl (fun obj m =>
           let obj :=
             {| cnt := <[ {| mode := m; has := false |} := 0 ]> (cnt obj) |} in
           {| cnt := <[ {| mode := m; has := true |} := 0 ]> (cnt obj) |})
        {| cnt := ∅ |} modes.

(** The key under which [Add] counts an object. *)
Definition keyOf (vpa : model.Vpa Q) : objectCounterKey :=
  let mode := match model.UpdateMode vpa with
              | Some um => um
              | None => ""
              end in
  {| mode := mode; has := HasRecommendation vpa |}.

(** [oc.cnt[key]++]: a missing key reads as zero. *)
Definition Add (vpa : model.Vpa Q) (oc : ObjectCounter) : ObjectCounter :=
  let key := keyOf vpa in
  {| cnt := <[ key := GoInt.incr (default 0 (cnt oc !! key)) ]> (cnt oc) |}.

(** The body of the loop of [Observe]. *)
Definition observeBucket (kv : objectCounterKey * Z) (m : Metrics)
    : option Metrics :=
  g ← prometheus.WithLabelValues_Set [mode kv.1; Sprintf_v (has kv.1)]
        (Float64.of_int kv.2) (vpaObjectCount m);
  Some {| vpaContainerRecommendations := vpaContainerRecommendations m;
          vpaObjectCount := g |}.

(** [Observe] ranges over a Go map, whose iteration order is not fixed:
    any enumeration of the entries may be the one that runs.  The state
    is the counter together with the metrics; [None] is a panic. *)
Inductive Observe (oc : ObjectCounter) (m : Metrics)
    : option (ObjectCounter * Metrics) -> Prop :=
| Observe_run (kvs : list (objectCounterKey * Z)) :
    kvs ≡ₚ map_to_list (cnt oc) ->
    Observe oc m (m' ← range_ observeBucket kvs m; Some (oc, m')).

End Recommender.

(** * Part II: the notions of the properties *)

(** ** The counter *)

(** A run of [Add] over the objects of a cycle, in order. *)
Definition AddAll {Q : Type} (HasRecommendation : model.Vpa Q -> bool)
    (vpas : list (model.Vpa Q)) (oc : ObjectCounter) : ObjectCounter :=
  foldl (fun oc vpa => Add HasRecommendation vpa oc) oc vpas.

(** The count that a counter holds for a key; a missing key reads as zero,
    as [oc.cnt[key]] does. *)
Definition count (oc : ObjectCounter) (key : objectCounterKey) : Z :=
  default 0 (cnt oc !! key).

(** The sum of all bucket counts. *)
Definition total (oc : ObjectCounter) : Z :=
  map_fold (fun _ v acc => v + acc) 0 (cnt oc).

(** How many of the objects fall into the bucket [key]. *)
Definition occurrences {Q : Type} (HasRecommendation : model.Vpa Q -> bool)
    (key : objectCounterKey) (vpas : list (model.Vpa Q)) : nat :=
  length (filter (fun vpa => keyOf HasRecommendation vpa = key) vpas).

(** The effect of [Add] on the map, as a function of the key alone. *)
Definition addKey (key : objectCounterKey) (oc : ObjectCounter)
    : ObjectCounter :=
  {| cnt := <[ key := GoInt.incr (count oc key) ]> (cnt oc) |}.

(** ** The metrics *)

(** The metrics carry the label names they were declared with; every
    function of the package keeps them. *)
Definition declared (m : Metrics) : Prop :=
  prometheus.labelNames (vpaContainerRecommendations m)
    = prometheus.labelNames (vpaContainerRecommendations initial_metrics)
  /\ prometheus.labelNames (vpaObjectCount m)
    = prometheus.labelNames (vpaObjectCount initial_metrics).

(** The label values under which [Observe] writes a bucket. *)
Definition bucketLabels (key : objectCounterKey) : list string :=
  [mode key; Sprintf_v (has key)].

(** The calls of [Set] that [Observe] makes for the entries [kvs], in the
    order of the enumeration. *)
Definition bucketSets (kvs : list (objectCounterKey * Z))
    : list (list string * float64) :=
  (fun kv => (bucketLabels kv.1, Float64.of_int kv.2)) <$> kvs.

(** The series that a flush of [oc] leaves behind, whatever the order. *)
Definition flushed (oc : ObjectCounter) : gmap (list string) float64 :=
  list_to_map (bucketSets (map_to_list (cnt oc))).

(** The flush that enumerates the map in the order of [map_to_list]. *)
Definition flushInOrder (oc : ObjectCounter) (m : Metrics)
    : option (ObjectCounter * Metrics) :=
  m' ← range_ observeBucket (map_to_list (cnt oc)) m; Some (oc, m').

(** The metrics after one more [Set] on the gauge of the recommendations. *)
Definition recorded (lvs : list string) (v : float64) (m : Metrics)
    : Metrics :=
  {| vpaContainerRecommendations :=
       {| prometheus.labelNames :=
            prometheus.labelNames (vpaContainerRecommendations m);
          prometheus.series :=
            <[lvs := v]> (prometheus.series (vpaContainerRecommendations m));
          prometheus.sets :=
            prometheus.sets (vpaContainerRecommendations m) ++ [(lvs, v)] |};
     vpaObjectCount := vpaObjectCount m |}.

(** ** The recommendations, as the specification words them *)

(** The three bands and the two resources of a container recommendation,
    with the label each is exported under. *)
Definition bands {Q : Type}
    : list (string * (vpa_types.RecommendedContainerResources Q
                      -> vpa_types.ResourceList Q)) :=
  [("lower_bound", vpa_types.LowerBound); ("target", vpa_types.Target);
   ("upper_bound", vpa_types.UpperBound)].

Definition resources {Q : Type}
    : list (string * (vpa_types.ResourceList Q -> Q)) :=
  [("cpu", vpa_types.Cpu); ("memory", vpa_types.Memory)].

(** What the specification asks [ObserveVPARecommendation] to write for one
    container: a value for every pair of a band and a resource. *)
Definition recommendationSets {Q : Type} `{QuantityOps Q} (vpa : model.Vpa Q)
    (r : vpa_types.RecommendedContainerResources Q)
    : list (list string * float64) :=
  band ← bands;
  resource ← resources;
  [([model.VpaName (model.ID vpa); model.Namespace (model.ID vpa);
     model.Selector_String (model.PodSelector vpa);
     vpa_types.ContainerName r; band.1; resource.1],
    toFloat64 (resource.2 (band.2 r)))].

(** ** Rounding to 53 bits *)

(** The quotient of [m] by [2 ^ k], rounded to nearest, ties to even. *)
Definition rne (m k : Z) : Z :=
  let q := m / 2 ^ k in
  match (2 * (m mod 2 ^ k) ?= 2 ^ k)%Z with
  | Lt => q
  | Eq => if Z.even q then q else q + 1
  | Gt => q + 1
  end.

(** What [k] right shifts of the mantissa [m] leave in a shift record: the
    quotient, and the place of the remainder with respect to one half. *)
Definition shr_inv (m k : Z) (mrs : shr_record) : Prop :=
  shr_m mrs = m / 2 ^ k
  /\ loc_of_shr_record mrs
     = (if (m mod 2 ^ k =? 0)%Z then loc_Exact
        else loc_Inexact (2 * (m mod 2 ^ k) ?= 2 ^ k)%Z).

(** A positive number [m * 2 ^ e], as the pair [(m, e)] with [m] of 53 bits
    or more, rounded to 53 bits. *)
Definition round53 (f : Z * Z) : Z * Z :=
  let k := Z.log2 f.1 - 52 in
  let q := rne f.1 k in
  if (q =? 2 ^ 53)%Z then (2 ^ 52, f.2 + k + 1) else (q, f.2 + k).

(** A positive number brought to 53 bits or more without changing its
    value. *)
Definition norm (f : Z * Z) : Z * Z :=
  let j := Z.max 0 (52 - Z.log2 f.1) in (f.1 * 2 ^ j, f.2 - j).

(** The finite float of sign [s], mantissa [f.1] and exponent [f.2]. *)
Definition fin (s : bool) (f : Z * Z) : float64 :=
  S754_finite s (Z.to_pos f.1) f.2.

(** The order of two positive floats of 53 bits: by exponent, then by
    mantissa. *)
Definition lex_le (f1 f2 : Z * Z) : Prop :=
  f1.2 < f2.2 \/ (f1.2 = f2.2 /\ f1.1 <= f2.1).

(** A mantissa of exactly 53 bits. *)
Definition canon (f : Z * Z) : Prop := 2 ^ 52 <= f.1 < 2 ^ 53.

(** The mantissa of [Float64.milli]. *)
Definition milliMantissa : Z := 4611686018427388.

(** The mantissa and exponent of [float64(a)] for a positive [a]. *)
Definition roundInt (a : Z) : Z * Z := round53 (norm (a, 0)).

(** The mantissa and exponent of [float64(a) * 0.001] for a positive [a]. *)
Definition roundMilli (a : Z) : Z * Z :=
  round53 ((roundInt a).1 * milliMantissa, (roundInt a).2 - 62).

(** The float [x] is the integer [z], exactly. *)
Definition represents (x : float64) (z : Z) : Prop :=
  match x with
  | S754_zero _ => z = 0
  | S754_finite s m e =>
      0 <= e + 52
      /\ (if s then - Z.pos m else Z.pos m) * 2 ^ (e + 52) = z * 2 ^ 52
  | _ => False
  end.

(** ** Sample data *)

(** An amount of thousandths, between nothing and 9 * 10^18 of them. *)
Definition maxMilli : Z := 9000000000000000000.

Record Amount := {
  millis : Z;
  millis_range : 0 <= millis <= maxMilli;
}.

(** The whole value of an amount rounds up, as [Value()] does. *)
#[global] Instance Amount_ops : QuantityOps Amount :=
  {| Value := fun q => (millis q + 999) / 1000; MilliValue := millis |}.

Lemma clamp_range (z : Z) : 0 <= Z.max 0 (Z.min z maxMilli) <= maxMilli.
Proof. unfold maxMilli. lia. Qed.

Definition amount (milli : Z) : Amount :=
  {| millis := Z.max 0 (Z.min milli maxMilli);
     millis_range := clamp_range milli |}.

Definition cpu (milli : Z) : Amount := amount milli.

Definition memory (bytes : Z) : Amount := amount (bytes * 1000).

(** An object has a recommendation when it carries a container
    recommendation. *)
Definition carriesRecommendation {Q : Type} (vpa : model.Vpa Q) : bool :=
  match vpa_types.ContainerRecommendations (model.Recommendation vpa) with
  | [] => false
  | _ :: _ => true
  end.

Definition sampleVpa (um : option vpa_types.UpdateMode)
    (recs : list (vpa_types.RecommendedContainerResources Amount))
    : model.Vpa Amount :=
  {| model.ID := {| model.Namespace := "default"; model.VpaName := "web" |};
     model.PodSelector := {| model.Selector_String := "app=web" |};
     model.Recommendation := {| vpa_types.ContainerRecommendations := recs |};
     model.UpdateMode := um |}.

Definition sampleContainer (name : string)
    : vpa_types.RecommendedContainerResources Amount :=
  {| vpa_types.ContainerName := name;
     vpa_types.Target :=
       {| vpa_types.Cpu := cpu 200; vpa_types.Memory := memory 536870912 |};
     vpa_types.LowerBound :=
       {| vpa_types.Cpu := cpu 100; vpa_types.Memory := memory 268435456 |};
     vpa_types.UpperBound :=
       {| vpa_types.Cpu := cpu 400;
          vpa_types.Memory := memory 1073741824 |} |}.

Definition autoVpa : model.Vpa Amount :=
  sampleVpa (Some vpa_types.UpdateModeAuto)
    [sampleContainer "app"; sampleContainer "sidecar"].

Definition unsetVpa : model.Vpa Amount := sampleVpa None [].

Definition strangeVpa : model.Vpa Amount := sampleVpa (Some "Later") [].

(** * Part III: the properties *)

(** ** Machine integers *)

Module GoIntFacts.
Import GoInt.

Lemma wrap_in_range z : in_range z -> wrap z = z.
Proof.
  unfold in_range, wrap, MinInt, MaxInt. intros Hz.
  rewrite Z.mod_small by lia. lia.
Qed.

Lemma incr_no_overflow x : MinInt <= x < MaxInt -> incr x = x + 1.
Proof.
  intros Hx. unfold incr. apply wrap_in_range.
  unfold in_range. lia.
Qed.

End GoIntFacts.

(** ** Floats *)

Module Float64Facts.

Lemma digits2_pos_size p : digits2_pos p = Pos.size p.
Proof. induction p; simpl; congruence. Qed.

Lemma Zdigits_log2 p : Zpos (digits2_pos p) = Z.log2 (Zpos p) + 1.
Proof.
  destruct p as [p | p |]; simpl; rewrite ?digits2_pos_size; lia.
Qed.

Lemma shr_inv_0 m :
  shr_inv m 0 {| shr_m := m; shr_r := false; shr_s := false |}.
Proof.
  unfold shr_inv. simpl. rewrite Z.div_1_r, Z.mod_1_r. split; reflexivity.
Qed.

Lemma shr_1_spec q r s :
  0 <= q ->
  shr_1 {| shr_m := q; shr_r := r; shr_s := s |}
  = {| shr_m := q / 2; shr_r := Z.odd q; shr_s := orb r s |}.
Proof.
  intros Hq. rewrite <- Z.div2_div.
  destruct q as [| [p | p |] | p]; try reflexivity. lia.
Qed.

Lemma shr_1_inv m k mrs :
  0 <= m -> 0 <= k -> shr_inv m k mrs -> shr_inv m (k + 1) (shr_1 mrs).
Proof.
  intros Hm Hk [Hq Hloc].
  assert (Hpow : 0 < 2 ^ k) by (apply Z.pow_pos_nonneg; lia).
  assert (Hp1 : 2 ^ (k + 1) = 2 ^ k * 2).
  { rewrite Z.pow_add_r, Z.pow_1_r by lia. reflexivity. }
  assert (Hdiv : m / 2 ^ (k + 1) = m / 2 ^ k / 2).
  { rewrite Hp1, Z.div_div by lia. reflexivity. }
  assert (Hmod : m mod 2 ^ (k + 1) = m mod 2 ^ k + 2 ^ k * ((m / 2 ^ k) mod 2)).
  { rewrite Hp1. apply Z.rem_mul_r; lia. }
  assert (Hrem : 0 <= m mod 2 ^ k < 2 ^ k) by (apply Z.mod_pos_bound; lia).
  assert (Hq0 : 0 <= m / 2 ^ k) by (apply Z.div_pos; lia).
  unfold shr_inv. rewrite Hdiv, Hmod, Hp1.
  destruct mrs as [q r s]. simpl in Hq, Hloc. subst q.
  rewrite shr_1_spec by assumption. cbn [shr_m loc_of_shr_record].
  split; [ reflexivity | ].
  rewrite Zmod_odd.
  assert (Hs : orb r s = negb (m mod 2 ^ k =? 0)%Z).
  { destruct (m mod 2 ^ k =? 0)%Z; destruct r, s; simpl in *; congruence. }
  rewrite Hs.
  destruct (Z.odd (m / 2 ^ k));
    destruct (Z.eqb_spec (m mod 2 ^ k) 0) as [H0 | H0]; cbn [negb].
  - rewrite H0. destruct (Z.eqb_spec (0 + 2 ^ k * 1) 0); [ lia | ].
    f_equal. symmetry. apply Z.compare_eq_iff. lia.
  - destruct (Z.eqb_spec (m mod 2 ^ k + 2 ^ k * 1) 0); [ lia | ].
    f_equal. symmetry. apply Z.compare_gt_iff. lia.
  - rewrite H0. destruct (Z.eqb_spec (0 + 2 ^ k * 0) 0); [ reflexivity | lia ].
  - destruct (Z.eqb_spec (m mod 2 ^ k + 2 ^ k * 0) 0); [ lia | ].
    f_equal. symmetry. apply Z.compare_lt_iff. lia.
Qed.

Lemma iter_pos_shr_inv m p : forall k mrs,
  0 <= m -> 0 <= k -> shr_inv m k mrs ->
  shr_inv m (k + Zpos p) (SpecFloat.iter_pos shr_1 p mrs).
Proof.
  induction p as [p IH | p IH |]; intros k mrs Hm Hk Hinv;
    cbn [SpecFloat.iter_pos].
  - replace (k + Z.pos p~1) with (k + 1 + Z.pos p + Z.pos p) by lia.
    apply IH; [ lia .. | ]. apply IH; [ lia .. | ]. by apply shr_1_inv.
  - replace (k + Z.pos p~0) with (k + Z.pos p + Z.pos p) by lia.
    apply IH; [ lia .. | ]. by apply IH.
  - by apply shr_1_inv.
Qed.

Lemma round_nearest_even_inv m k mrs :
  0 <= m -> 0 <= k -> shr_inv m k mrs ->
  round_nearest_even (shr_m mrs) (loc_of_shr_record mrs) = rne m k.
Proof.
  intros Hm Hk [Hq Hloc]. rewrite Hq, Hloc. unfold rne.
  assert (Hpow : 0 < 2 ^ k) by (apply Z.pow_pos_nonneg; lia).
  destruct (Z.eqb_spec (m mod 2 ^ k) 0) as [H0 | H0].
  - rewrite H0. cbn [round_nearest_even].
    assert (Hc : (2 * 0 ?= 2 ^ k)%Z = Lt) by (apply Z.compare_lt_iff; lia).
    rewrite Hc. reflexivity.
  - cbn [round_nearest_even]. destruct (2 * (m mod 2 ^ k) ?= 2 ^ k)%Z;
      reflexivity.
Qed.

(** Shifting right by [k] and rounding. *)
Lemma shr_rne m e k :
  0 <= m -> 0 <= k ->
  snd (shr {| shr_m := m; shr_r := false; shr_s := false |} e k) = e + k
  /\ (let mrs :=
        fst (shr {| shr_m := m; shr_r := false; shr_s := false |} e k) in
      round_nearest_even (shr_m mrs) (loc_of_shr_record mrs) = rne m k).
Proof.
  intros Hm Hk. destruct k as [| p | p]; [ | | lia ].
  - cbn [shr fst snd]. split; [ lia | ].
    apply round_nearest_even_inv; [ lia .. | apply shr_inv_0 ].
  - cbn [shr fst snd]. split; [ reflexivity | ].
    apply round_nearest_even_inv; [ lia .. | ].
    change (Z.pos p) with (0 + Z.pos p). apply iter_pos_shr_inv; [ lia .. | ].
    apply shr_inv_0.
Qed.

Lemma rne_0 m : rne m 0 = m.
Proof.
  unfold rne. rewrite Z.pow_0_r, Z.mod_1_r, Z.div_1_r. reflexivity.
Qed.

Lemma rne_bounds m k :
  0 <= k -> m / 2 ^ k <= rne m k <= m / 2 ^ k + 1.
Proof.
  intros Hk. unfold rne.
  destruct (2 * (m mod 2 ^ k) ?= 2 ^ k)%Z;
    [ destruct (Z.even _) | | ]; lia.
Qed.

Lemma rne_scale m k j :
  0 <= k -> 0 <= j -> rne (m * 2 ^ j) (k + j) = rne m k.
Proof.
  intros Hk Hj.
  assert (Hpk : 0 < 2 ^ k) by (apply Z.pow_pos_nonneg; lia).
  assert (Hpj : 0 < 2 ^ j) by (apply Z.pow_pos_nonneg; lia).
  unfold rne. rewrite Z.pow_add_r by lia.
  rewrite Z.div_mul_cancel_r by lia.
  rewrite Z.mul_mod_distr_r by lia.
  replace (2 * (m mod 2 ^ k * 2 ^ j)) with (2 * (m mod 2 ^ k) * 2 ^ j) by lia.
  rewrite <- (Zmult_compare_compat_r _ _ (2 ^ j)) by lia. reflexivity.
Qed.

Lemma rne_mono m1 m2 k :
  0 <= k -> m1 <= m2 -> rne m1 k <= rne m2 k.
Proof.
  intros Hk Hle.
  assert (Hpk : 0 < 2 ^ k) by (apply Z.pow_pos_nonneg; lia).
  pose proof (Z.div_le_mono m1 m2 (2 ^ k) Hpk Hle) as Hq.
  destruct (Z.eq_dec (m1 / 2 ^ k) (m2 / 2 ^ k)) as [Heq | Hne].
  - assert (Hr : m1 mod 2 ^ k <= m2 mod 2 ^ k).
    { rewrite !Z.mod_eq by lia. rewrite Heq. lia. }
    unfold rne. rewrite Heq.
    destruct (Z.compare_spec (2 * (m1 mod 2 ^ k)) (2 ^ k));
      destruct (Z.compare_spec (2 * (m2 mod 2 ^ k)) (2 ^ k));
      destruct (Z.even (m2 / 2 ^ k)); lia.
  - pose proof (rne_bounds m1 k Hk). pose proof (rne_bounds m2 k Hk). lia.
Qed.

Lemma fexp_normal e : -1074 <= e - 53 -> fexp 53 1024 e = e - 53.
Proof. intros He. unfold fexp, emin. lia. Qed.

Lemma rne_canonical m :
  2 ^ 52 <= m -> 2 ^ 52 <= rne m (Z.log2 m - 52) <= 2 ^ 53.
Proof.
  intros Hm.
  assert (Hpos : 0 < m) by lia.
  pose proof (Z.log2_spec m Hpos) as Hlog.
  assert (Hlog52 : 52 <= Z.log2 m).
  { apply Z.log2_le_pow2; lia. }
  set (k := Z.log2 m - 52) in *.
  assert (Hk : 0 <= k) by lia.
  assert (Hpk : 0 < 2 ^ k) by (apply Z.pow_pos_nonneg; lia).
  assert (Hlo : 2 ^ 52 * 2 ^ k <= m).
  { rewrite <- Z.pow_add_r by lia.
    replace (52 + k) with (Z.log2 m) by lia. lia. }
  assert (Hhi : m < 2 ^ 53 * 2 ^ k).
  { rewrite <- Z.pow_add_r by lia.
    replace (53 + k) with (Z.succ (Z.log2 m)) by lia. lia. }
  pose proof (rne_bounds m k Hk) as Hb.
  assert (2 ^ 52 <= m / 2 ^ k) by (apply Z.div_le_lower_bound; lia).
  assert (m / 2 ^ k < 2 ^ 53) by (apply Z.div_lt_upper_bound; lia).
  lia.
Qed.

Lemma Zdigits2_log2 m : 0 < m -> Zdigits2 m = Z.log2 m + 1.
Proof.
  intros Hm. destruct m as [| p | p]; try lia. apply Zdigits_log2.
Qed.

Lemma shr_fexp_rne m e :
  2 ^ 52 <= m -> -1074 <= Z.log2 m + e - 52 ->
  let k := Z.log2 m - 52 in
  snd (shr_fexp 53 1024 m e loc_Exact) = e + k
  /\ (let mrs := fst (shr_fexp 53 1024 m e loc_Exact) in
      round_nearest_even (shr_m mrs) (loc_of_shr_record mrs) = rne m k).
Proof.
  intros Hm Hmin k. unfold shr_fexp.
  rewrite Zdigits2_log2 by lia. rewrite fexp_normal by lia.
  replace (Z.log2 m + 1 + e - 53 - e) with k by (unfold k; lia).
  cbn [shr_record_of_loc].
  assert (Hlog52 : 52 <= Z.log2 m) by (apply Z.log2_le_pow2; lia).
  apply shr_rne; unfold k; lia.
Qed.

Lemma binary_round_aux_round53 s m e :
  2 ^ 52 <= m -> -1074 <= Z.log2 m + e - 52 -> Z.log2 m + e <= 1022 ->
  binary_round_aux 53 1024 s m e loc_Exact = fin s (round53 (m, e)).
Proof.
  intros Hm Hmin Hmax.
  destruct (shr_fexp_rne m e Hm Hmin) as [He' Hq].
  unfold binary_round_aux.
  destruct (shr_fexp 53 1024 m e loc_Exact) as [mrs' e'].
  cbn [fst snd] in He', Hq. cbv zeta in Hq. rewrite Hq. subst e'.
  pose proof (rne_canonical m Hm) as Hcan.
  unfold round53. cbn [fst snd].
  set (k := Z.log2 m - 52) in *. set (q := rne m k) in *.
  destruct (Z.eqb_spec q (2 ^ 53)) as [Hcarry | Hnocarry].
  - rewrite Hcarry. unfold shr_fexp.
    change (Zdigits2 (2 ^ 53)) with 54.
    rewrite fexp_normal by lia.
    replace (54 + (e + k) - 53 - (e + k)) with 1 by lia.
    cbn [shr shr_record_of_loc SpecFloat.iter_pos].
    change (shr_1 {| shr_m := 2 ^ 53; shr_r := false; shr_s := false |})
      with {| shr_m := 2 ^ 52; shr_r := false; shr_s := false |}.
    cbn [shr_m]. change (2 ^ 52) with (Zpos (2 ^ 52)%positive) at 1.
    cbv iota beta.
    replace (e + k + 1 <=? 1024 - 53)%Z with true
      by (symmetry; apply Z.leb_le; lia).
    reflexivity.
  - assert (Hlogq : Z.log2 q = 52).
    { apply Z.log2_unique; [ lia | ]. change (Z.succ 52) with 53. lia. }
    unfold shr_fexp. rewrite Zdigits2_log2 by lia. rewrite Hlogq.
    rewrite fexp_normal by lia.
    replace (52 + 1 + (e + k) - 53 - (e + k)) with 0 by lia.
    cbn [shr shr_record_of_loc shr_m].
    destruct q as [| q' | q']; try lia.
    replace (e + k <=? 1024 - 53)%Z with true
      by (symmetry; apply Z.leb_le; lia).
    reflexivity.
Qed.

Lemma log2_ge_52 m : 2 ^ 52 <= m -> 52 <= Z.log2 m.
Proof. intros Hm. apply Z.log2_le_pow2; lia. Qed.

Lemma round53_canon m e : 2 ^ 52 <= m -> canon (round53 (m, e)).
Proof.
  intros Hm. pose proof (rne_canonical m Hm) as Hq.
  unfold canon, round53. cbn [fst snd].
  destruct (Z.eqb_spec (rne m (Z.log2 m - 52)) (2 ^ 53)); cbn [fst]; lia.
Qed.

Lemma round53_exponent m e :
  2 ^ 52 <= m ->
  e + Z.log2 m - 52 <= snd (round53 (m, e)) <= e + Z.log2 m - 51.
Proof.
  intros Hm. unfold round53. cbn [fst snd].
  destruct (Z.eqb_spec (rne m (Z.log2 m - 52)) (2 ^ 53)); cbn [snd]; lia.
Qed.

Lemma round53_scale m e j :
  2 ^ 52 <= m -> 0 <= j -> round53 (m * 2 ^ j, e - j) = round53 (m, e).
Proof.
  intros Hm Hj. pose proof (log2_ge_52 m Hm) as Hlog.
  unfold round53. cbn [fst snd].
  rewrite Z.log2_mul_pow2 by lia.
  replace (j + Z.log2 m - 52) with (Z.log2 m - 52 + j) by lia.
  rewrite rne_scale by lia.
  replace (e - j + (Z.log2 m - 52 + j)) with (e + (Z.log2 m - 52)) by lia.
  reflexivity.
Qed.

Lemma round53_mono_aligned m1 m2 e :
  2 ^ 52 <= m1 -> m1 <= m2 -> lex_le (round53 (m1, e)) (round53 (m2, e)).
Proof.
  intros Hm1 Hle.
  assert (Hm2 : 2 ^ 52 <= m2) by lia.
  pose proof (rne_canonical m1 Hm1) as Hq1.
  pose proof (rne_canonical m2 Hm2) as Hq2.
  assert (Hlog : Z.log2 m1 <= Z.log2 m2) by (apply Z.log2_le_mono; lia).
  unfold lex_le, round53. cbn [fst snd].
  destruct (Z.eq_dec (Z.log2 m1) (Z.log2 m2)) as [Heq | Hne].
  - rewrite Heq in *.
    pose proof (rne_mono m1 m2 (Z.log2 m2 - 52)) as Hmono.
    pose proof (log2_ge_52 m2 Hm2).
    destruct (Z.eqb_spec (rne m1 (Z.log2 m2 - 52)) (2 ^ 53));
      destruct (Z.eqb_spec (rne m2 (Z.log2 m2 - 52)) (2 ^ 53));
      cbn [fst snd]; lia.
  - destruct (Z.eqb_spec (rne m1 (Z.log2 m1 - 52)) (2 ^ 53));
      destruct (Z.eqb_spec (rne m2 (Z.log2 m2 - 52)) (2 ^ 53));
      cbn [fst snd]; lia.
Qed.

(** Rounding keeps the order of the numbers [m * 2 ^ e]; the numbers are
    compared after scaling by [2 ^ S]. *)
Lemma round53_mono S m1 e1 m2 e2 :
  2 ^ 52 <= m1 -> 2 ^ 52 <= m2 -> 0 <= e1 + S -> 0 <= e2 + S ->
  m1 * 2 ^ (e1 + S) <= m2 * 2 ^ (e2 + S) ->
  lex_le (round53 (m1, e1)) (round53 (m2, e2)).
Proof.
  intros Hm1 Hm2 He1 He2 Hle.
  set (e0 := Z.min e1 e2).
  rewrite <- (round53_scale m1 e1 (e1 - e0)) by lia.
  rewrite <- (round53_scale m2 e2 (e2 - e0)) by lia.
  replace (e1 - (e1 - e0)) with e0 by lia.
  replace (e2 - (e2 - e0)) with e0 by lia.
  assert (Hp1 : 0 < 2 ^ (e1 - e0)) by (apply Z.pow_pos_nonneg; lia).
  assert (Hp0 : 0 < 2 ^ (e0 + S)) by (apply Z.pow_pos_nonneg; lia).
  apply round53_mono_aligned.
  { transitivity (m1 * 1); [ lia | ].
    apply Z.mul_le_mono_nonneg_l; lia. }
  apply (Z.mul_le_mono_pos_r _ _ (2 ^ (e0 + S))); [ assumption | ].
  rewrite <- !Z.mul_assoc, <- !Z.pow_add_r by lia.
  replace (e1 - e0 + (e0 + S)) with (e1 + S) by lia.
  replace (e2 - e0 + (e0 + S)) with (e2 + S) by lia.
  exact Hle.
Qed.

Lemma lex_le_scaled S f1 f2 :
  canon f1 -> canon f2 -> 0 <= snd f1 + S -> 0 <= snd f2 + S ->
  lex_le f1 f2 ->
  fst f1 * 2 ^ (snd f1 + S) <= fst f2 * 2 ^ (snd f2 + S).
Proof.
  destruct f1 as [m1 e1], f2 as [m2 e2]. unfold canon, lex_le. cbn [fst snd].
  intros Hc1 Hc2 He1 He2 [Hlt | [-> Hle]].
  - assert (Hp1 : 0 < 2 ^ (e1 + S)) by (apply Z.pow_pos_nonneg; lia).
    assert (Hstep : 2 ^ (e1 + S) * 2 <= 2 ^ (e2 + S)).
    { replace (e2 + S) with (e1 + S + (1 + (e2 - e1 - 1))) by lia.
      rewrite (Z.pow_add_r 2 (e1 + S)) by lia.
      rewrite (Z.pow_add_r 2 1) by lia. rewrite Z.pow_1_r.
      assert (0 < 2 ^ (e2 - e1 - 1)) by (apply Z.pow_pos_nonneg; lia).
      nia. }
    transitivity (2 ^ 53 * 2 ^ (e1 + S)); [ nia | ].
    transitivity (2 ^ 52 * 2 ^ (e2 + S)); [ | nia ].
    change (2 ^ 53) with (2 ^ 52 * 2). lia.
  - assert (Hp : 0 < 2 ^ (e2 + S)) by (apply Z.pow_pos_nonneg; lia).
    nia.
Qed.

Lemma iter_xO_pow p d : Zpos (Pos.iter xO p d) = Zpos p * 2 ^ Zpos d.
Proof.
  induction d as [| d IH] using Pos.peano_ind.
  - cbn [Pos.iter]. rewrite Z.pow_1_r. lia.
  - rewrite Pos.iter_succ, Pos2Z.inj_xO, IH, Pos2Z.inj_succ.
    rewrite Z.pow_succ_r by lia. lia.
Qed.

Lemma shl_align_min p e e' :
  shl_align p e e'
  = (Z.to_pos (Zpos p * 2 ^ (e - Z.min e e')), Z.min e e').
Proof.
  unfold shl_align. destruct (e' - e) as [| d | d] eqn:Hd.
  - replace (Z.min e e') with e by lia. rewrite Z.sub_diag, Z.mul_1_r.
    reflexivity.
  - replace (Z.min e e') with e by lia. rewrite Z.sub_diag, Z.mul_1_r.
    reflexivity.
  - replace (Z.min e e') with e' by lia.
    replace (e - e') with (Zpos d) by lia.
    rewrite <- iter_xO_pow. reflexivity.
Qed.

Lemma norm_bits m e : 0 < m -> 2 ^ 52 <= fst (norm (m, e)).
Proof.
  intros Hm. unfold norm. cbn [fst snd].
  pose proof (Z.log2_spec m Hm) as [Hlo _].
  pose proof (Z.log2_nonneg m).
  set (j := Z.max 0 (52 - Z.log2 m)).
  assert (Hj : 0 <= j) by lia.
  transitivity (2 ^ Z.log2 m * 2 ^ j).
  - rewrite <- Z.pow_add_r by lia. apply Z.pow_le_mono_r; lia.
  - apply Z.mul_le_mono_nonneg_r; [ apply Z.pow_nonneg; lia | assumption ].
Qed.

Lemma norm_log2 m e :
  0 < m -> Z.log2 (fst (norm (m, e))) + snd (norm (m, e)) = Z.log2 m + e.
Proof.
  intros Hm. unfold norm. cbn [fst snd].
  rewrite Z.log2_mul_pow2 by lia. lia.
Qed.

Lemma binary_round_round53 s p e :
  -1074 <= Z.log2 (Zpos p) + e - 52 -> Z.log2 (Zpos p) + e <= 1022 ->
  binary_round 53 1024 s p e = fin s (round53 (norm (Zpos p, e))).
Proof.
  intros Hmin Hmax. unfold binary_round.
  rewrite shl_align_min, Zdigits_log2, fexp_normal by lia.
  assert (Hj : e - Z.min e (Z.log2 (Z.pos p) + 1 + e - 53)
               = Z.max 0 (52 - Z.log2 (Z.pos p))) by lia.
  assert (He : Z.min e (Z.log2 (Z.pos p) + 1 + e - 53)
               = e - Z.max 0 (52 - Z.log2 (Z.pos p))) by lia.
  rewrite Hj, He.
  assert (Hpos : 0 < Z.pos p) by lia.
  pose proof (norm_bits (Z.pos p) e Hpos) as Hbits.
  pose proof (norm_log2 (Z.pos p) e Hpos) as Hlog.
  unfold norm in *. cbn [fst snd] in *.
  rewrite Z2Pos.id by lia.
  apply binary_round_aux_round53; lia.
Qed.

Lemma roundInt_canon a : 0 < a -> canon (roundInt a).
Proof.
  intros Ha. unfold roundInt.
  pose proof (norm_bits a 0 Ha) as Hbits.
  destruct (norm (a, 0)) as [m e]. by apply round53_canon.
Qed.

Lemma roundInt_exponent a :
  0 < a -> Z.log2 a - 52 <= snd (roundInt a) <= Z.log2 a - 51.
Proof.
  intros Ha. unfold roundInt.
  pose proof (norm_bits a 0 Ha) as Hbits.
  pose proof (norm_log2 a 0 Ha) as Hlog.
  destruct (norm (a, 0)) as [m e]. cbn [fst snd] in *.
  pose proof (round53_exponent m e Hbits). lia.
Qed.

Lemma log2_int64 a : 0 < a <= 2 ^ 63 -> 0 <= Z.log2 a <= 63.
Proof.
  intros Ha. split; [ apply Z.log2_nonneg | ].
  apply Z.lt_succ_r. apply Z.log2_lt_pow2; [ lia | ].
  change (Z.succ 63) with 64. change (2 ^ 64) with (2 * 2 ^ 63). lia.
Qed.

Lemma of_int_pos a :
  0 < a <= 2 ^ 63 -> Float64.of_int a = fin false (roundInt a).
Proof.
  intros Ha. pose proof (log2_int64 a Ha).
  destruct a as [| p | p]; try lia.
  unfold Float64.of_int, binary_normalize, roundInt.
  apply binary_round_round53; lia.
Qed.

Lemma of_int_neg a :
  0 < a <= 2 ^ 63 -> Float64.of_int (- a) = fin true (roundInt a).
Proof.
  intros Ha. pose proof (log2_int64 a Ha).
  destruct a as [| p | p]; try lia.
  unfold Float64.of_int, binary_normalize, roundInt. cbn [Z.opp].
  apply binary_round_round53; lia.
Qed.

Lemma mul_milli_fin s f :
  canon f -> -900 <= snd f <= 900 ->
  Float64.mul (fin s f) Float64.milli
  = fin s (round53 (fst f * milliMantissa, snd f - 62)).
Proof.
  destruct f as [m e]. unfold canon. cbn [fst snd]. intros Hc He.
  unfold Float64.mul, Float64.milli, fin, SFmul. cbn [fst snd].
  rewrite xorb_false_r.
  rewrite Pos2Z.inj_mul, Z2Pos.id by lia.
  fold milliMantissa.
  assert (Hlo : 2 ^ 104 <= m * milliMantissa) by (unfold milliMantissa; lia).
  assert (Hhi : m * milliMantissa < 2 ^ 106) by (unfold milliMantissa; lia).
  assert (Hl1 : 104 <= Z.log2 (m * milliMantissa))
    by (apply Z.log2_le_pow2; lia).
  assert (Hl2 : Z.log2 (m * milliMantissa) < 106)
    by (apply Z.log2_lt_pow2; lia).
  replace (e + -62) with (e - 62) by lia.
  apply binary_round_aux_round53; lia.
Qed.

Lemma leb_fin_false f1 f2 :
  0 < fst f1 -> 0 < fst f2 -> lex_le f1 f2 ->
  Float64.leb (fin false f1) (fin false f2) = true.
Proof.
  destruct f1 as [m1 e1], f2 as [m2 e2]. unfold lex_le. cbn [fst snd].
  intros H1 H2 Hle. unfold Float64.leb, SFleb, SFcompare, fin. cbn [fst snd].
  destruct Hle as [Hlt | [-> Hle]].
  - apply Z.compare_lt_iff in Hlt. rewrite Hlt. reflexivity.
  - rewrite Z.compare_refl.
    change (Pos.compare_cont Eq (Z.to_pos m1) (Z.to_pos m2))
      with (Z.to_pos m1 ?= Z.to_pos m2)%positive.
    rewrite <- Z2Pos.inj_compare by lia.
    destruct (Z.compare_spec m1 m2); try reflexivity; lia.
Qed.

Lemma leb_fin_true f1 f2 :
  0 < fst f1 -> 0 < fst f2 -> lex_le f1 f2 ->
  Float64.leb (fin true f2) (fin true f1) = true.
Proof.
  destruct f1 as [m1 e1], f2 as [m2 e2]. unfold lex_le. cbn [fst snd].
  intros H1 H2 Hle. unfold Float64.leb, SFleb, SFcompare, fin. cbn [fst snd].
  destruct Hle as [Hlt | [-> Hle]].
  - apply Z.compare_gt_iff in Hlt. rewrite Hlt. reflexivity.
  - rewrite Z.compare_refl.
    change (Pos.compare_cont Eq (Z.to_pos m2) (Z.to_pos m1))
      with (Z.to_pos m2 ?= Z.to_pos m1)%positive.
    rewrite <- Z2Pos.inj_compare by lia.
    destruct (Z.compare_spec m2 m1); try reflexivity; lia.
Qed.

Lemma roundInt_mono a b : 0 < a -> a <= b -> lex_le (roundInt a) (roundInt b).
Proof.
  intros Ha Hab. assert (Hb : 0 < b) by lia. unfold roundInt.
  pose proof (norm_bits a 0 Ha) as Hbits_a.
  pose proof (norm_bits b 0 Hb) as Hbits_b.
  pose proof (Z.log2_nonneg a). pose proof (Z.log2_nonneg b).
  unfold norm in *. cbn [fst snd] in *.
  set (ja := Z.max 0 (52 - Z.log2 a)) in *.
  set (jb := Z.max 0 (52 - Z.log2 b)) in *.
  apply (round53_mono 52); [ assumption | assumption | lia | lia | ].
  rewrite <- !Z.mul_assoc, <- !Z.pow_add_r by lia.
  replace (ja + (0 - ja + 52)) with 52 by lia.
  replace (jb + (0 - jb + 52)) with 52 by lia.
  lia.
Qed.

Lemma roundMilli_canon a : 0 < a -> canon (roundMilli a).
Proof.
  intros Ha. unfold roundMilli. apply round53_canon.
  pose proof (roundInt_canon a Ha) as Hc. unfold canon in Hc.
  unfold milliMantissa. lia.
Qed.

Lemma roundMilli_mono a b :
  0 < a -> a <= b -> b <= 2 ^ 63 -> lex_le (roundMilli a) (roundMilli b).
Proof.
  intros Ha Hab Hb. assert (Hb0 : 0 < b) by lia. unfold roundMilli.
  pose proof (roundInt_canon a Ha) as Hca.
  pose proof (roundInt_canon b Hb0) as Hcb.
  pose proof (roundInt_exponent a Ha) as Hea.
  pose proof (roundInt_exponent b Hb0) as Heb.
  pose proof (log2_int64 a ltac:(lia)). pose proof (log2_int64 b ltac:(lia)).
  pose proof (lex_le_scaled 52 (roundInt a) (roundInt b) Hca Hcb
                ltac:(lia) ltac:(lia) (roundInt_mono a b Ha Hab)) as Hle.
  unfold canon in *.
  apply (round53_mono 114);
    [ unfold milliMantissa; lia | unfold milliMantissa; lia | lia | lia | ].
  replace (snd (roundInt a) - 62 + 114) with (snd (roundInt a) + 52) by lia.
  replace (snd (roundInt b) - 62 + 114) with (snd (roundInt b) + 52) by lia.
  rewrite !(Z.mul_comm _ milliMantissa), <- !Z.mul_assoc.
  apply Z.mul_le_mono_nonneg_l; [ unfold milliMantissa; lia | exact Hle ].
Qed.

Lemma mul_of_int_pos a :
  0 < a <= 2 ^ 63 ->
  Float64.mul (Float64.of_int a) Float64.milli = fin false (roundMilli a).
Proof.
  intros Ha. rewrite of_int_pos by assumption.
  pose proof (roundInt_exponent a ltac:(lia)). pose proof (log2_int64 a Ha).
  apply mul_milli_fin; [ apply roundInt_canon; lia | lia ].
Qed.

Lemma mul_of_int_neg a :
  0 < a <= 2 ^ 63 ->
  Float64.mul (Float64.of_int (- a)) Float64.milli = fin true (roundMilli a).
Proof.
  intros Ha. rewrite of_int_neg by assumption.
  pose proof (roundInt_exponent a ltac:(lia)). pose proof (log2_int64 a Ha).
  apply mul_milli_fin; [ apply roundInt_canon; lia | lia ].
Qed.

Lemma of_int_neg' a :
  - 2 ^ 63 <= a < 0 -> Float64.of_int a = fin true (roundInt (- a)).
Proof.
  intros Ha. pose proof (of_int_neg (- a) ltac:(lia)) as Heq.
  by rewrite Z.opp_involutive in Heq.
Qed.

Lemma mul_of_int_neg' a :
  - 2 ^ 63 <= a < 0 ->
  Float64.mul (Float64.of_int a) Float64.milli = fin true (roundMilli (- a)).
Proof.
  intros Ha. pose proof (mul_of_int_neg (- a) ltac:(lia)) as Heq.
  by rewrite Z.opp_involutive in Heq.
Qed.

(** [float64(v)] is monotone on [int64]. *)
Lemma of_int_mono a b :
  GoInt.in_range a -> GoInt.in_range b -> a <= b ->
  Float64.leb (Float64.of_int a) (Float64.of_int b) = true.
Proof.
  unfold GoInt.in_range, GoInt.MinInt, GoInt.MaxInt. intros Ha Hb Hab.
  destruct (Z.lt_trichotomy a 0) as [Ha0 | [-> | Ha0]];
    destruct (Z.lt_trichotomy b 0) as [Hb0 | [-> | Hb0]]; try lia.
  - rewrite !of_int_neg' by lia.
    pose proof (roundInt_canon (- a) ltac:(lia)) as Hca.
    pose proof (roundInt_canon (- b) ltac:(lia)) as Hcb. unfold canon in *.
    apply leb_fin_true; [ lia | lia | ]. apply roundInt_mono; lia.
  - rewrite of_int_neg' by lia. reflexivity.
  - rewrite of_int_neg', of_int_pos by lia. reflexivity.
  - reflexivity.
  - rewrite (of_int_pos b) by lia. reflexivity.
  - rewrite !of_int_pos by lia.
    pose proof (roundInt_canon a ltac:(lia)) as Hca.
    pose proof (roundInt_canon b ltac:(lia)) as Hcb. unfold canon in *.
    apply leb_fin_false; [ lia | lia | ]. apply roundInt_mono; lia.
Qed.

(** [float64(v) * 0.001] is monotone on [int64]. *)
Lemma mul_milli_mono a b :
  GoInt.in_range a -> GoInt.in_range b -> a <= b ->
  Float64.leb (Float64.mul (Float64.of_int a) Float64.milli)
              (Float64.mul (Float64.of_int b) Float64.milli) = true.
Proof.
  unfold GoInt.in_range, GoInt.MinInt, GoInt.MaxInt. intros Ha Hb Hab.
  destruct (Z.lt_trichotomy a 0) as [Ha0 | [-> | Ha0]];
    destruct (Z.lt_trichotomy b 0) as [Hb0 | [-> | Hb0]]; try lia.
  - rewrite !mul_of_int_neg' by lia.
    pose proof (roundMilli_canon (- a) ltac:(lia)) as Hca.
    pose proof (roundMilli_canon (- b) ltac:(lia)) as Hcb. unfold canon in *.
    apply leb_fin_true; [ lia | lia | ]. apply roundMilli_mono; lia.
  - rewrite mul_of_int_neg' by lia. reflexivity.
  - rewrite mul_of_int_neg', mul_of_int_pos by lia. reflexivity.
  - reflexivity.
  - rewrite (mul_of_int_pos b) by lia. reflexivity.
  - rewrite !mul_of_int_pos by lia.
    pose proof (roundMilli_canon a ltac:(lia)) as Hca.
    pose proof (roundMilli_canon b ltac:(lia)) as Hcb. unfold canon in *.
    apply leb_fin_false; [ lia | lia | ]. apply roundMilli_mono; lia.
Qed.

(** The conversion of an integer of at most 53 bits loses nothing. *)
Lemma roundInt_exact a :
  0 < a <= 2 ^ 53 ->
  0 <= (roundInt a).2 + 52
  /\ (roundInt a).1 * 2 ^ ((roundInt a).2 + 52) = a * 2 ^ 52.
Proof.
  intros Ha.
  assert (Hlog : Z.log2 a <= 53).
  { rewrite <- (Z.log2_pow2 53) by lia. apply Z.log2_le_mono. lia. }
  pose proof (Z.log2_nonneg a) as Hlog0.
  destruct (Z.eq_dec a (2 ^ 53)) as [-> | Hne];
    [ vm_compute; split; [ discriminate | reflexivity ] | ].
  assert (Hlog52 : Z.log2 a <= 52).
  { apply Z.lt_succ_r. apply Z.log2_lt_pow2; lia. }
  pose proof (Z.log2_spec a ltac:(lia)) as [_ Hhi].
  unfold roundInt, norm, round53. cbn [fst snd].
  replace (Z.max 0 (52 - Z.log2 a)) with (52 - Z.log2 a) by lia.
  rewrite Z.log2_mul_pow2 by lia.
  replace (52 - Z.log2 a + Z.log2 a - 52) with 0 by lia.
  rewrite rne_0.
  assert (Hlt : a * 2 ^ (52 - Z.log2 a) < 2 ^ 53).
  { replace 53 with (Z.succ (Z.log2 a) + (52 - Z.log2 a)) by lia.
    rewrite Z.pow_add_r by lia.
    apply Z.mul_lt_mono_pos_r; [ apply Z.pow_pos_nonneg; lia | exact Hhi ]. }
  destruct (Z.eqb_spec (a * 2 ^ (52 - Z.log2 a)) (2 ^ 53)); [ lia | ].
  cbn [fst snd]. split; [ lia | ].
  rewrite <- Z.mul_assoc, <- Z.pow_add_r by lia. f_equal. f_equal. lia.
Qed.

Lemma of_int_exact a : 0 <= a <= 2 ^ 53 -> represents (Float64.of_int a) a.
Proof.
  intros Ha. destruct (Z.eq_dec a 0) as [-> | Hne]; [ reflexivity | ].
  rewrite of_int_pos by lia.
  pose proof (roundInt_canon a ltac:(lia)) as Hc. unfold canon in Hc.
  destruct (roundInt_exact a ltac:(lia)) as [He Hv].
  unfold fin, represents. rewrite Z2Pos.id by lia. split; assumption.
Qed.

End Float64Facts.

(** ** The metrics and the flush *)

Lemma declared_initial : declared initial_metrics.
Proof. split; reflexivity. Qed.

Lemma bucketLabels_inj k1 k2 : bucketLabels k1 = bucketLabels k2 -> k1 = k2.
Proof.
  destruct k1 as [m1 h1], k2 as [m2 h2]. unfold bucketLabels. simpl.
  intros Heq. injection Heq as Hm Hh. subst m2.
  destruct h1, h2; simpl in Hh; try discriminate; reflexivity.
Qed.

(** The seeded map, bucket by bucket. *)
Lemma NewObjectCounter_lookup key :
  cnt NewObjectCounter !! key
  = if decide (mode key ∈ modes) then Some 0 else None.
Proof.
  destruct key as [m h]. cbn [mode].
  destruct (decide (m ∈ modes)) as [Hin | Hout].
  - unfold modes in Hin.
    repeat (apply elem_of_cons in Hin as [-> | Hin]);
      [ destruct h; reflexivity .. | by apply elem_of_nil in Hin ].
  - unfold NewObjectCounter, modes. cbn [foldl cnt].
    repeat (rewrite lookup_insert_ne;
            [ | intros [= <- _]; apply Hout; unfold modes; set_solver ]).
    apply lookup_empty.
Qed.

Lemma foldl_insert_list_to_map {V : Type}
    (l : list (list string * V)) (s : gmap (list string) V) :
  NoDup l.*1 ->
  foldl (fun s p => <[p.1 := p.2]> s) s l = list_to_map l ∪ s.
Proof.
  revert s. induction l as [| [k v] l IH]; intros s Hnd.
  - simpl. by rewrite (left_id_L ∅ (∪)).
  - simpl in *. apply NoDup_cons in Hnd as [Hk Hnd].
    rewrite IH by assumption.
    rewrite <- insert_union_l. symmetry. apply insert_union_r.
    by apply not_elem_of_list_to_map_1.
Qed.

Lemma bucketSets_fst_NoDup kvs : NoDup kvs.*1 -> NoDup (bucketSets kvs).*1.
Proof.
  intros Hnd. unfold bucketSets. rewrite <- list_fmap_compose.
  change (NoDup ((bucketLabels ∘ fst) <$> kvs)).
  rewrite list_fmap_compose. apply NoDup_fmap_2; [ | assumption ].
  intros k1 k2. apply bucketLabels_inj.
Qed.

Lemma flushed_lookup oc key :
  flushed oc !! bucketLabels key = Float64.of_int <$> cnt oc !! key.
Proof.
  unfold flushed.
  assert (Hnd : NoDup (bucketSets (map_to_list (cnt oc))).*1)
    by (apply bucketSets_fst_NoDup, NoDup_fst_map_to_list).
  destruct (cnt oc !! key) as [v |] eqn:Hk; simpl.
  - apply elem_of_list_to_map_1; [ assumption | ].
    unfold bucketSets. apply list_elem_of_fmap.
    exists (key, v). split; [ reflexivity | ].
    by apply elem_of_map_to_list.
  - apply not_elem_of_list_to_map_1. intros Hin.
    apply list_elem_of_fmap in Hin as [[lbl x] [Heq Hin]].
    unfold bucketSets in Hin.
    apply list_elem_of_fmap in Hin as [[k v] [[= -> ->] Hin]].
    simpl in Heq. apply bucketLabels_inj in Heq as ->.
    apply elem_of_map_to_list in Hin. congruence.
Qed.

(** One turn of the loop of [Observe] on declared metrics. *)
Lemma observeBucket_declared key v m :
  declared m ->
  observeBucket (key, v) m
  = Some {| vpaContainerRecommendations := vpaContainerRecommendations m;
            vpaObjectCount :=
              {| prometheus.labelNames :=
                   prometheus.labelNames (vpaObjectCount m);
                 prometheus.series :=
                   <[bucketLabels key := Float64.of_int v]>
                     (prometheus.series (vpaObjectCount m));
                 prometheus.sets :=
                   prometheus.sets (vpaObjectCount m)
                   ++ [(bucketLabels key, Float64.of_int v)] |} |}.
Proof.
  intros [_ Hcnt]. unfold observeBucket, prometheus.WithLabelValues_Set.
  rewrite Hcnt. reflexivity.
Qed.

(** The loop of [Observe] over any list of entries: it does not panic on
    declared metrics, appends one [Set] per entry and leaves the other
    gauge alone. *)
Lemma range_observeBucket kvs : forall m,
  declared m ->
  exists m',
    range_ observeBucket kvs m = Some m'
    /\ declared m'
    /\ vpaContainerRecommendations m' = vpaContainerRecommendations m
    /\ prometheus.sets (vpaObjectCount m')
       = prometheus.sets (vpaObjectCount m) ++ bucketSets kvs
    /\ prometheus.series (vpaObjectCount m')
       = foldl (fun s p => <[p.1 := p.2]> s)
           (prometheus.series (vpaObjectCount m)) (bucketSets kvs).
Proof.
  induction kvs as [| [k v] kvs IH]; intros m Hm.
  - exists m. simpl. rewrite app_nil_r. auto.
  - cbn [range_]. rewrite (observeBucket_declared k v m Hm).
    cbn [mbind option_bind].
    match goal with
    | |- context [range_ observeBucket kvs ?m1] =>
        destruct (IH m1) as (m' & Hrun & Hd & Hframe & Hsets & Hser);
          [ destruct Hm; split; assumption | ]
    end.
    exists m'. split; [ exact Hrun | ]. split; [ exact Hd | ].
    split; [ exact Hframe | ]. split.
    + rewrite Hsets. cbn. by rewrite <- app_assoc.
    + rewrite Hser. reflexivity.
Qed.

(** A flush, seen from outside: the counter comes back as it was, one [Set]
    is made per bucket, and each bucket's series holds the bucket's count
    whatever the order of the enumeration. *)
Lemma Observe_spec oc m r :
  declared m -> Observe oc m r ->
  exists m' kvs,
    r = Some (oc, m')
    /\ declared m'
    /\ vpaContainerRecommendations m' = vpaContainerRecommendations m
    /\ kvs ≡ₚ map_to_list (cnt oc)
    /\ prometheus.sets (vpaObjectCount m')
       = prometheus.sets (vpaObjectCount m) ++ bucketSets kvs
    /\ prometheus.series (vpaObjectCount m')
       = flushed oc ∪ prometheus.series (vpaObjectCount m).
Proof.
  intros Hm Hobs. destruct Hobs as [kvs Hperm].
  destruct (range_observeBucket kvs m Hm)
    as (m' & Hrun & Hd & Hframe & Hsets & Hser).
  exists m', kvs. rewrite Hrun. split; [ reflexivity | ].
  split; [ exact Hd | ]. split; [ exact Hframe | ].
  split; [ exact Hperm | ]. split; [ exact Hsets | ].
  assert (Hnd : NoDup (bucketSets kvs).*1).
  { apply bucketSets_fst_NoDup. rewrite Hperm.
    apply NoDup_fst_map_to_list. }
  rewrite Hser, foldl_insert_list_to_map by assumption.
  f_equal. unfold flushed. apply list_to_map_proper; [ assumption | ].
  unfold bucketSets. by apply fmap_Permutation.
Qed.

(** The value that a flush leaves in the series of a bucket. *)
Lemma Observe_series oc m r key v :
  declared m -> Observe oc m r -> cnt oc !! key = Some v ->
  exists m' new,
    r = Some (oc, m')
    /\ prometheus.sets (vpaObjectCount m')
       = prometheus.sets (vpaObjectCount m) ++ new
    /\ length new = size (cnt oc)
    /\ (bucketLabels key, Float64.of_int v) ∈ new
    /\ prometheus.series (vpaObjectCount m') !! bucketLabels key
       = Some (Float64.of_int v).
Proof.
  intros Hm Hobs Hk.
  destruct (Observe_spec oc m r Hm Hobs)
    as (m' & kvs & -> & _ & _ & Hperm & Hsets & Hser).
  exists m', (bucketSets kvs). split; [ reflexivity | ].
  split; [ exact Hsets | ]. split; [ | split ].
  - unfold bucketSets. rewrite length_fmap, Hperm. apply length_map_to_list.
  - unfold bucketSets. apply list_elem_of_fmap. exists (key, v).
    split; [ reflexivity | ]. rewrite Hperm. by apply elem_of_map_to_list.
  - rewrite Hser. apply lookup_union_Some_l.
    by rewrite flushed_lookup, Hk.
Qed.

(** Every enumeration of the map is a run of [Observe]; in particular one
    exists. *)
Lemma Observe_map_to_list oc m :
  Observe oc m
    (m' ← range_ observeBucket (map_to_list (cnt oc)) m; Some (oc, m')).
Proof. by constructor. Qed.

(** *** What [Add] does to the buckets *)

Section AddFacts.
Context {Q : Type} (HasRecommendation : model.Vpa Q -> bool).

Local Abbreviation keyOf := (keyOf HasRecommendation).
Local Abbreviation Add := (Add HasRecommendation).
Local Abbreviation AddAll := (AddAll HasRecommendation).
Local Abbreviation occurrences := (occurrences HasRecommendation).

Lemma cnt_Add_same vpa oc :
  cnt (Add vpa oc) !! keyOf vpa
  = Some (GoInt.incr (count oc (keyOf vpa))).
Proof. unfold Add. cbn [cnt]. apply lookup_insert_eq. Qed.

Lemma cnt_Add_other vpa oc key :
  key ≠ keyOf vpa -> cnt (Add vpa oc) !! key = cnt oc !! key.
Proof. intros Hne. unfold Add. cbn [cnt]. by apply lookup_insert_ne. Qed.

Lemma count_Add vpa oc key :
  GoInt.MinInt <= count oc (keyOf vpa) < GoInt.MaxInt ->
  count (Add vpa oc) key
  = count oc key + (if decide (keyOf vpa = key) then 1 else 0).
Proof.
  intros Hrange. unfold count at 1. case_decide as Hk.
  - subst key. rewrite cnt_Add_same. simpl.
    by apply GoIntFacts.incr_no_overflow.
  - rewrite cnt_Add_other by congruence. unfold count. lia.
Qed.

Lemma dom_Add vpa oc :
  dom (cnt (Add vpa oc)) = {[ keyOf vpa ]} ∪ dom (cnt oc).
Proof. unfold Add. cbn [cnt]. apply dom_insert_L. Qed.

Lemma AddAll_snoc vpas vpa oc :
  AddAll (vpas ++ [vpa]) oc = Add vpa (AddAll vpas oc).
Proof. unfold AddAll. by rewrite foldl_app. Qed.

Lemma occurrences_cons key vpa vpas :
  occurrences key (vpa :: vpas)
  = ((if decide (keyOf vpa = key) then 1 else 0) + occurrences key vpas)%nat.
Proof.
  unfold occurrences. rewrite filter_cons.
  case_decide; reflexivity.
Qed.

Lemma occurrences_le key vpas : (occurrences key vpas <= length vpas)%nat.
Proof. unfold occurrences. apply length_filter. Qed.

(** Counting is exact as long as no bucket can leave the range of [int]. *)
Lemma count_AddAll vpas : forall oc,
  (forall key, 0 <= count oc key
               /\ count oc key + Z.of_nat (length vpas) <= GoInt.MaxInt) ->
  forall key,
    count (AddAll vpas oc) key
    = count oc key + Z.of_nat (occurrences key vpas).
Proof.
  induction vpas as [| vpa vpas IH]; intros oc Hoc key.
  - unfold occurrences. simpl. lia.
  - change (AddAll (vpa :: vpas) oc) with (AddAll vpas (Add vpa oc)).
    assert (Hstep : forall k,
               count (Add vpa oc) k
               = count oc k + (if decide (keyOf vpa = k) then 1 else 0)).
    { intros k. apply count_Add.
      specialize (Hoc (keyOf vpa)). cbn [length] in Hoc.
      unfold GoInt.MinInt. lia. }
    rewrite IH.
    + rewrite Hstep, occurrences_cons.
      destruct (decide (keyOf vpa = key)); lia.
    + intros k. rewrite Hstep. specialize (Hoc k). cbn [length] in Hoc.
      destruct (decide (keyOf vpa = k)); lia.
Qed.

Lemma dom_AddAll vpas : forall oc,
  dom (cnt (AddAll vpas oc))
  = list_to_set (keyOf <$> vpas) ∪ dom (cnt oc).
Proof.
  induction vpas as [| vpa vpas IH]; intros oc.
  - simpl. by rewrite (left_id_L ∅ (∪)).
  - change (AddAll (vpa :: vpas) oc) with (AddAll vpas (Add vpa oc)).
    rewrite IH, dom_Add, fmap_cons, list_to_set_cons.
    rewrite (assoc_L (∪)). f_equal. apply (comm_L (∪)).
Qed.

Lemma cnt_AddAll_other vpas key : forall oc,
  key ∉ keyOf <$> vpas ->
  cnt (AddAll vpas oc) !! key = cnt oc !! key.
Proof.
  induction vpas as [| vpa vpas IH]; intros oc Hout; [ reflexivity | ].
  change (AddAll (vpa :: vpas) oc) with (AddAll vpas (Add vpa oc)).
  rewrite fmap_cons in Hout. apply not_elem_of_cons in Hout as [Hne Hout].
  rewrite IH by assumption. by apply cnt_Add_other.
Qed.

Lemma occurrences_all key vpas :
  Forall (fun vpa => keyOf vpa = key) vpas ->
  occurrences key vpas = length vpas.
Proof.
  induction 1 as [| vpa vpas Hk _ IH]; [ reflexivity | ].
  rewrite occurrences_cons, decide_True by assumption.
  cbn [length]. lia.
Qed.

Lemma count_NewObjectCounter key : count NewObjectCounter key = 0.
Proof.
  unfold count. rewrite NewObjectCounter_lookup.
  case_decide; reflexivity.
Qed.

(** On a fresh counter every bucket holds the number of objects added to
    it, for as many objects as an [int] can count. *)
Lemma count_AddAll_fresh vpas key :
  Z.of_nat (length vpas) <= GoInt.MaxInt ->
  count (AddAll vpas NewObjectCounter) key
  = Z.of_nat (occurrences key vpas).
Proof.
  intros Hlen. rewrite count_AddAll.
  - by rewrite count_NewObjectCounter.
  - intros k. rewrite count_NewObjectCounter. lia.
Qed.

Lemma cnt_AddAll_fresh vpas key :
  Z.of_nat (length vpas) <= GoInt.MaxInt ->
  cnt (AddAll vpas NewObjectCounter) !! key
  = if decide (mode key ∈ modes \/ key ∈ keyOf <$> vpas)
    then Some (Z.of_nat (occurrences key vpas)) else None.
Proof.
  intros Hlen.
  pose proof (count_AddAll_fresh vpas key Hlen) as Hcount.
  unfold count in Hcount.
  assert (Hdom : key ∈ dom (cnt (AddAll vpas NewObjectCounter))
                 <-> mode key ∈ modes \/ key ∈ keyOf <$> vpas).
  { rewrite dom_AddAll, elem_of_union, elem_of_list_to_set, elem_of_dom.
    rewrite NewObjectCounter_lookup.
    case_decide as Hm.
    - split; intros _; [ by left | right; eauto ].
    - split; intros [Hl | Hr];
        [ by right | by destruct Hr | contradiction | by left ]. }
  case_decide as Hk.
  - apply Hdom, elem_of_dom in Hk as [v Hv]. rewrite Hv in Hcount |- *.
    simpl in Hcount. by subst v.
  - apply eq_None_not_Some. intros Hs. apply Hk, Hdom, elem_of_dom, Hs.
Qed.

End AddFacts.

(** *** The sum of the buckets *)

Lemma total_insert key v (m : gmap objectCounterKey Z) :
  total {| cnt := <[key := v]> m |} = v + total {| cnt := delete key m |}.
Proof.
  unfold total. cbn [cnt]. rewrite <- insert_delete_eq.
  apply (map_fold_insert_L (fun _ x acc => x + acc)).
  - intros. lia.
  - apply lookup_delete_eq.
Qed.

Lemma total_delete oc key :
  total oc = count oc key + total {| cnt := delete key (cnt oc) |}.
Proof.
  unfold count. destruct (cnt oc !! key) as [v |] eqn:Hk; simpl.
  - rewrite <- total_insert. by rewrite insert_id.
  - rewrite delete_id by assumption. by destruct oc.
Qed.

Lemma total_NewObjectCounter : total NewObjectCounter = 0.
Proof. reflexivity. Qed.

Lemma addKey_comm k1 k2 oc :
  addKey k1 (addKey k2 oc) = addKey k2 (addKey k1 oc).
Proof.
  unfold addKey, count. cbn [cnt]. f_equal.
  destruct (decide (k1 = k2)) as [-> | Hne]; [ reflexivity | ].
  rewrite !lookup_insert_ne by congruence.
  by apply insert_insert_ne.
Qed.

Lemma foldl_addKey_Permutation ks1 ks2 :
  ks1 ≡ₚ ks2 ->
  forall oc,
    foldl (fun oc k => addKey k oc) oc ks1
    = foldl (fun oc k => addKey k oc) oc ks2.
Proof.
  induction 1 as [| k ks1 ks2 _ IH | k1 k2 ks | ks1 ks2 ks3 _ IH1 _ IH2];
    intros oc; simpl.
  - reflexivity.
  - apply IH.
  - by rewrite addKey_comm.
  - by rewrite IH1.
Qed.

Section SumFacts.
Context {Q : Type} (HasRecommendation : model.Vpa Q -> bool).

Local Abbreviation keyOf := (keyOf HasRecommendation).
Local Abbreviation Add := (Add HasRecommendation).
Local Abbreviation AddAll := (AddAll HasRecommendation).

Lemma AddAll_addKey vpas oc :
  AddAll vpas oc = foldl (fun oc k => addKey k oc) oc (keyOf <$> vpas).
Proof.
  revert oc. induction vpas as [| vpa vpas IH]; intros oc;
    [ reflexivity | ].
  simpl. rewrite <- IH. reflexivity.
Qed.

(** The counter depends on the keys that were added, not on their
    order. *)
Lemma AddAll_Permutation vpas1 vpas2 oc :
  keyOf <$> vpas1 ≡ₚ keyOf <$> vpas2 ->
  AddAll vpas1 oc = AddAll vpas2 oc.
Proof.
  intros Hperm. rewrite !AddAll_addKey.
  by apply foldl_addKey_Permutation.
Qed.

Lemma total_Add vpa oc :
  GoInt.MinInt <= count oc (keyOf vpa) < GoInt.MaxInt ->
  total (Add vpa oc) = total oc + 1.
Proof.
  intros Hrange. unfold Add. cbn zeta. rewrite total_insert.
  rewrite (total_delete oc (keyOf vpa)).
  fold (count oc (keyOf vpa)).
  rewrite GoIntFacts.incr_no_overflow by assumption. lia.
Qed.

Lemma total_AddAll_fresh vpas :
  Z.of_nat (length vpas) <= GoInt.MaxInt ->
  total (AddAll vpas NewObjectCounter) = Z.of_nat (length vpas).
Proof.
  induction vpas as [| vpa vpas IH] using rev_ind; intros Hlen.
  - reflexivity.
  - rewrite length_app in Hlen. cbn [length] in Hlen.
    rewrite AddAll_snoc, total_Add.
    + rewrite IH by lia. rewrite length_app. cbn [length]. lia.
    + rewrite count_AddAll_fresh by lia.
      pose proof (occurrences_le HasRecommendation (keyOf vpa) vpas).
      unfold GoInt.MinInt. lia.
Qed.

End SumFacts.

(** ** The recommendations *)

Lemma recorded_declared lvs v m : declared m -> declared (recorded lvs v m).
Proof. intros [Hrec Hcnt]. split; assumption. Qed.

Section RecommendationClaims.
Context {Q : Type} `{QuantityOps Q}.

Lemma setRecommendation_declared (vpa : model.Vpa Q) r ty res q m :
  declared m ->
  setRecommendation vpa r ty res q m
  = Some (recorded [model.VpaName (model.ID vpa);
                    model.Namespace (model.ID vpa);
                    model.Selector_String (model.PodSelector vpa);
                    vpa_types.ContainerName r; ty; res]
                   (toFloat64 q) m).
Proof.
  intros [Hrec _].
  unfold setRecommendation, prometheus.WithLabelValues_Set.
  rewrite decide_True by (rewrite Hrec; reflexivity). reflexivity.
Qed.

Lemma observeContainer_spec (vpa : model.Vpa Q) r m :
  declared m ->
  exists m',
    observeContainer vpa r m = Some m'
    /\ declared m'
    /\ vpaObjectCount m' = vpaObjectCount m
    /\ prometheus.sets (vpaContainerRecommendations m')
       = prometheus.sets (vpaContainerRecommendations m)
         ++ recommendationSets vpa r.
Proof.
  intros Hm. unfold observeContainer.
  do 5 (rewrite setRecommendation_declared
          by (repeat apply recorded_declared; exact Hm);
        cbn [mbind option_bind]).
  rewrite setRecommendation_declared
    by (repeat apply recorded_declared; exact Hm).
  eexists. split; [ reflexivity | ].
  split; [ repeat apply recorded_declared; exact Hm | ].
  split; [ reflexivity | ].
  cbn [recorded vpaContainerRecommendations prometheus.sets].
  rewrite <- !app_assoc. reflexivity.
Qed.

Lemma ObserveVPARecommendation_spec (vpa : model.Vpa Q) m :
  declared m ->
  exists m',
    ObserveVPARecommendation vpa m = Some m'
    /\ declared m'
    /\ vpaObjectCount m' = vpaObjectCount m
    /\ prometheus.sets (vpaContainerRecommendations m')
       = prometheus.sets (vpaContainerRecommendations m)
         ++ (vpa_types.ContainerRecommendations (model.Recommendation vpa)
             ≫= recommendationSets vpa).
Proof.
  unfold ObserveVPARecommendation.
  generalize (vpa_types.ContainerRecommendations (model.Recommendation vpa)).
  intros recs. revert m.
  induction recs as [| r recs IH]; intros m Hm.
  - exists m. cbn. rewrite app_nil_r. auto.
  - destruct (observeContainer_spec vpa r m Hm)
      as (m1 & Hrun1 & Hm1 & Hcnt1 & Hsets1).
    destruct (IH m1 Hm1) as (m' & Hrun & Hm' & Hcnt & Hsets).
    exists m'. cbn [range_]. rewrite Hrun1. cbn [mbind option_bind].
    split; [ exact Hrun | ]. split; [ exact Hm' | ].
    split; [ congruence | ].
    rewrite Hsets, Hsets1, <- app_assoc. reflexivity.
Qed.

Lemma length_recommendationSets (vpa : model.Vpa Q) r :
  length (recommendationSets vpa r) = 6%nat.
Proof. reflexivity. Qed.

(** C3. On declared metrics [ObserveVPARecommendation] sets the gauge six
    times per container recommendation, in the order of the containers:
    once for every band and resource, with the converted quantity, under
    the labels of the object, the container, the band and the resource.
    Two containers make twelve calls, none makes none. *)
Theorem ObserveVPARecommendation_sets (vpa : model.Vpa Q) (m : Metrics) :
  declared m ->
  exists m',
    ObserveVPARecommendation vpa m = Some m'
    /\ prometheus.sets (vpaContainerRecommendations m')
       = prometheus.sets (vpaContainerRecommendations m)
         ++ (vpa_types.ContainerRecommendations (model.Recommendation vpa)
             ≫= recommendationSets vpa)
    /\ length (prometheus.sets (vpaContainerRecommendations m'))
       = (length (prometheus.sets (vpaContainerRecommendations m))
          + 6 * length (vpa_types.ContainerRecommendations
                          (model.Recommendation vpa)))%nat
    /\ vpaObjectCount m' = vpaObjectCount m.
Proof.
  intros Hm.
  destruct (ObserveVPARecommendation_spec vpa m Hm)
    as (m' & Hrun & _ & Hcnt & Hsets).
  exists m'. split; [ exact Hrun | ]. split; [ exact Hsets | ].
  split; [ | exact Hcnt ].
  rewrite Hsets, length_app. f_equal.
  generalize (vpa_types.ContainerRecommendations (model.Recommendation vpa)).
  intros recs. induction recs as [| r recs IH]; [ reflexivity | ].
  rewrite bind_cons, length_app, IH, length_recommendationSets.
  cbn [length]. lia.
Qed.

(** C9. [ObserveVPARecommendation] does not panic on declared metrics,
    whatever the object; without container recommendations it returns
    the metrics as they were, having set nothing. *)
Theorem ObserveVPARecommendation_total (vpa : model.Vpa Q) (m : Metrics) :
  declared m ->
  is_Some (ObserveVPARecommendation vpa m)
  /\ (vpa_types.ContainerRecommendations (model.Recommendation vpa) = [] ->
      ObserveVPARecommendation vpa m = Some m).
Proof.
  intros Hm. split.
  - destruct (ObserveVPARecommendation_spec vpa m Hm) as (m' & Hrun & _).
    rewrite Hrun. by eexists.
  - intros Hnil. unfold ObserveVPARecommendation. by rewrite Hnil.
Qed.

End RecommendationClaims.

(** ** The conversion *)

(** The sample amounts are ordered by their thousandths. *)
#[global] Instance Amount_order : QuantityOrder Amount.
Proof.
  refine {| Less := fun q1 q2 => millis q1 < millis q2 |}.
  - intros [m Hm]. unfold GoInt.in_range, GoInt.MinInt, GoInt.MaxInt.
    cbn [Value Amount_ops millis]. unfold maxMilli in Hm.
    assert (0 <= (m + 999) / 1000) by (apply Z.div_pos; lia).
    assert ((m + 999) / 1000 <= m + 999)
      by (apply Z.div_le_upper_bound; lia).
    lia.
  - intros [m Hm]. unfold GoInt.in_range, GoInt.MinInt, GoInt.MaxInt.
    cbn [MilliValue Amount_ops millis]. unfold maxMilli in Hm. lia.
  - intros [m1 H1] [m2 H2]. cbn [Value Amount_ops millis]. intros Hlt.
    apply Z.div_le_mono; lia.
  - intros [m1 H1] [m2 H2]. cbn [MilliValue Amount_ops millis]. lia.
Defined.

Section ConversionClaims.
Context {Q : Type} `{QuantityOrder Q}.

(** The two branches of [toFloat64]. *)
Lemma toFloat64_direct (q : Q) :
  Value q > 10000000 -> toFloat64 q = Float64.of_int (Value q).
Proof. intros Hv. unfold toFloat64. by rewrite bool_decide_eq_true_2. Qed.

Lemma toFloat64_milli (q : Q) :
  Value q <= 10000000 ->
  toFloat64 q = Float64.mul (Float64.of_int (MilliValue q)) Float64.milli.
Proof.
  intros Hv. unfold toFloat64.
  rewrite bool_decide_eq_false_2 by lia. reflexivity.
Qed.

(** C2. The threshold of [toFloat64] is exclusive: a quantity whose whole
    value is above 10,000,000 converts to that value as a float, and any
    other quantity, the one of value 10,000,000 included, converts to its
    milli-value as a float times 0.001. *)
Theorem toFloat64_threshold (q : Q) :
  (Value q > 10000000 -> toFloat64 q = Float64.of_int (Value q))
  /\ (Value q <= 10000000 ->
      toFloat64 q
      = Float64.mul (Float64.of_int (MilliValue q)) Float64.milli).
Proof.
  unfold toFloat64. split; intros Hv.
  - rewrite bool_decide_eq_true_2 by assumption. reflexivity.
  - rewrite bool_decide_eq_false_2 by lia. reflexivity.
Qed.

(** C6. Within either branch [toFloat64] keeps the order: of two quantities
    [q1 < q2] whose whole values are both above 10,000,000, or both at or
    below it, the first does not convert to the larger float. *)
Theorem toFloat64_monotone (q1 q2 : Q) :
  Less q1 q2 ->
  (Value q1 > 10000000 /\ Value q2 > 10000000)
  \/ (Value q1 <= 10000000 /\ Value q2 <= 10000000) ->
  Float64.leb (toFloat64 q1) (toFloat64 q2) = true.
Proof.
  intros Hlt [[Hv1 Hv2] | [Hv1 Hv2]].
  - rewrite !toFloat64_direct by assumption.
    apply Float64Facts.of_int_mono;
      [ apply Value_int64 | apply Value_int64 | by apply Value_mono ].
  - rewrite !toFloat64_milli by assumption.
    apply Float64Facts.mul_milli_mono;
      [ apply MilliValue_int64 | apply MilliValue_int64
      | by apply MilliValue_mono ].
Qed.

End ConversionClaims.

(** ** The claims about the counter *)

Section CounterClaims.
Context {Q : Type} (HasRecommendation : model.Vpa Q -> bool).

Local Abbreviation keyOf := (keyOf HasRecommendation).
Local Abbreviation Add := (Add HasRecommendation).
Local Abbreviation AddAll := (AddAll HasRecommendation).

(** C1. A counter fresh from [NewObjectCounter] holds a zero for every
    pair of a known mode and a boolean, and a flush of it, in whatever
    order the map is enumerated, sets the gauge of that pair to 0. *)
Theorem fresh_counter_flushes_zero (m0 : string) (h : bool) (m : Metrics)
    (r : option (ObjectCounter * Metrics)) :
  m0 ∈ modes -> declared m -> Observe NewObjectCounter m r ->
  cnt NewObjectCounter !! {| mode := m0; has := h |} = Some 0
  /\ exists m' new,
       r = Some (NewObjectCounter, m')
       /\ prometheus.sets (vpaObjectCount m')
          = prometheus.sets (vpaObjectCount m) ++ new
       /\ length new = (2 * length modes)%nat
       /\ ([m0; Sprintf_v h], S754_zero false) ∈ new
       /\ prometheus.series (vpaObjectCount m') !! [m0; Sprintf_v h]
          = Some (S754_zero false).
Proof.
  intros Hin Hm Hobs.
  assert (Hk : cnt NewObjectCounter !! {| mode := m0; has := h |} = Some 0).
  { rewrite NewObjectCounter_lookup. by rewrite decide_True. }
  split; [ exact Hk | ].
  destruct (Observe_series _ _ _ _ _ Hm Hobs Hk)
    as (m' & new & Hr & Hsets & Hlen & Hnew & Hser).
  exists m', new. repeat split; assumption.
Qed.

(** C5. An object without an update mode is counted under the empty mode
    string, which is none of the named modes; one such object without a
    recommendation makes the bucket of the empty mode and [false] hold 1
    and leaves the bucket of Auto and [true] at 0. *)
Theorem Add_unset_mode (vpa : model.Vpa Q) :
  model.UpdateMode vpa = None ->
  keyOf vpa = {| mode := ""; has := HasRecommendation vpa |}
  /\ ("" ∉ modes)
  /\ (HasRecommendation vpa = false ->
      cnt (Add vpa NewObjectCounter) !! {| mode := ""; has := false |}
        = Some 1
      /\ cnt (Add vpa NewObjectCounter)
           !! {| mode := vpa_types.UpdateModeAuto; has := true |}
         = Some 0).
Proof.
  intros Hnil.
  assert (Hkey : keyOf vpa = {| mode := ""; has := HasRecommendation vpa |}).
  { unfold keyOf. by rewrite Hnil. }
  split; [ exact Hkey | ]. split.
  - unfold modes. intros Hin.
    repeat (apply elem_of_cons in Hin as [Heq | Hin];
            [ discriminate Heq | ]).
    by apply elem_of_nil in Hin.
  - intros Hhas. rewrite Hhas in Hkey. split.
    + rewrite <- Hkey, cnt_Add_same, count_NewObjectCounter. reflexivity.
    + rewrite cnt_Add_other by (rewrite Hkey; discriminate).
      reflexivity.
Qed.

(** C7. A flush hands the counter back as it was, and a second flush of
    the same counter leaves every series of the gauge at the value the
    first flush gave it. *)
Theorem Observe_read_only (oc : ObjectCounter) (m : Metrics)
    (r1 : option (ObjectCounter * Metrics)) :
  declared m -> Observe oc m r1 ->
  exists m1,
    r1 = Some (oc, m1)
    /\ forall r2, Observe oc m1 r2 ->
         exists m2,
           r2 = Some (oc, m2)
           /\ prometheus.series (vpaObjectCount m2)
              = prometheus.series (vpaObjectCount m1)
           /\ vpaContainerRecommendations m2
              = vpaContainerRecommendations m1.
Proof.
  intros Hm Hobs1.
  destruct (Observe_spec oc m r1 Hm Hobs1)
    as (m1 & kvs1 & -> & Hm1 & _ & _ & _ & Hser1).
  exists m1. split; [ reflexivity | ]. intros r2 Hobs2.
  destruct (Observe_spec oc m1 r2 Hm1 Hobs2)
    as (m2 & kvs2 & -> & _ & Hframe & _ & _ & Hser2).
  exists m2. split; [ reflexivity | ]. split; [ | exact Hframe ].
  rewrite Hser2, Hser1, (assoc_L (∪)). f_equal.
  apply (idemp_L (∪)).
Qed.

(** C4. After [k] objects of one and the same key were added to a fresh
    counter, [k] within the range of [int], a flush sets the gauge of that
    key to [k] and the gauge of every other seeded bucket to 0; the map
    itself is as [NewObjectCounter] left it outside that key.  A single
    [Add] raises the count of its own key by one and touches no other
    entry.  (With no object at all the key has a gauge only if it is
    seeded.) *)
Theorem Add_same_bucket (key : objectCounterKey)
    (vpas : list (model.Vpa Q)) (m : Metrics)
    (r : option (ObjectCounter * Metrics)) :
  Forall (fun vpa => keyOf vpa = key) vpas ->
  Z.of_nat (length vpas) <= GoInt.MaxInt ->
  declared m ->
  Observe (AddAll vpas NewObjectCounter) m r ->
  (forall key', key' ≠ key ->
     cnt (AddAll vpas NewObjectCounter) !! key'
     = cnt NewObjectCounter !! key')
  /\ (exists m',
        r = Some (AddAll vpas NewObjectCounter, m')
        /\ (vpas ≠ [] \/ mode key ∈ modes ->
            prometheus.series (vpaObjectCount m') !! bucketLabels key
            = Some (Float64.of_int (Z.of_nat (length vpas))))
        /\ (Z.of_nat (length vpas) <= 2 ^ 53 ->
            represents (Float64.of_int (Z.of_nat (length vpas)))
              (Z.of_nat (length vpas)))
        /\ (forall key', key' ≠ key -> mode key' ∈ modes ->
              prometheus.series (vpaObjectCount m') !! bucketLabels key'
              = Some (S754_zero false)))
  /\ (forall oc vpa,
        GoInt.MinInt <= count oc (keyOf vpa) < GoInt.MaxInt ->
        count (Add vpa oc) (keyOf vpa) = count oc (keyOf vpa) + 1
        /\ forall key', key' ≠ keyOf vpa ->
             cnt (Add vpa oc) !! key' = cnt oc !! key').
Proof.
  intros Hall Hlen Hm Hobs.
  assert (Hother : forall key', key' ≠ key ->
            cnt (AddAll vpas NewObjectCounter) !! key'
            = cnt NewObjectCounter !! key').
  { intros key' Hne. apply cnt_AddAll_other. intros Hin.
    apply list_elem_of_fmap in Hin as [vpa [-> Hin]].
    rewrite Forall_forall in Hall. apply Hne, Hall, Hin. }
  split; [ exact Hother | ]. split.
  - destruct (Observe_spec _ _ _ Hm Hobs)
      as (m' & kvs & -> & _ & _ & _ & _ & Hser).
    exists m'. split; [ reflexivity | ]. split.
    + intros Hex. rewrite Hser. apply lookup_union_Some_l.
      rewrite flushed_lookup, cnt_AddAll_fresh by assumption.
      rewrite occurrences_all by assumption.
      rewrite decide_True; [ reflexivity | ].
      destruct Hex as [Hne | Hseed]; [ right | by left ].
      destruct vpas as [| vpa vpas]; [ exfalso; apply Hne; reflexivity | ].
      apply list_elem_of_fmap. exists vpa. split; [ | by left ].
      symmetry. by apply Forall_inv in Hall.
    + split; [ intros Hsmall; apply Float64Facts.of_int_exact; lia | ].
      intros key' Hne Hseed. rewrite Hser. apply lookup_union_Some_l.
      rewrite flushed_lookup, Hother, NewObjectCounter_lookup by assumption.
      by rewrite decide_True.
  - intros oc vpa Hrange. split.
    + rewrite count_Add by assumption. by rewrite decide_True.
    + intros key' Hne. by apply cnt_Add_other.
Qed.

(** C8. A key that [NewObjectCounter] did not seed (its mode is none of
    the four) has no entry until an object with that key is added; the
    first such [Add] creates the entry with count 1, and a flush then
    sets the gauge of the key to 1. *)
Theorem Add_creates_bucket (vpas : list (model.Vpa Q)) (vpa : model.Vpa Q)
    (m : Metrics) (r : option (ObjectCounter * Metrics)) :
  keyOf vpa ∉ dom (cnt NewObjectCounter) ->
  keyOf vpa ∉ keyOf <$> vpas ->
  declared m ->
  Observe (Add vpa (AddAll vpas NewObjectCounter)) m r ->
  (mode (keyOf vpa) ∉ modes)
  /\ cnt (AddAll vpas NewObjectCounter) !! keyOf vpa = None
  /\ cnt (Add vpa (AddAll vpas NewObjectCounter)) !! keyOf vpa = Some 1
  /\ exists m',
       r = Some (Add vpa (AddAll vpas NewObjectCounter), m')
       /\ prometheus.series (vpaObjectCount m') !! bucketLabels (keyOf vpa)
          = Some (Float64.of_int 1).
Proof.
  intros Hseed Hfirst Hm Hobs.
  apply not_elem_of_dom in Hseed.
  assert (Hnone : cnt (AddAll vpas NewObjectCounter) !! keyOf vpa = None).
  { by rewrite cnt_AddAll_other. }
  assert (Hone : cnt (Add vpa (AddAll vpas NewObjectCounter)) !! keyOf vpa
                 = Some 1).
  { rewrite cnt_Add_same. unfold count. rewrite Hnone. reflexivity. }
  split.
  - rewrite NewObjectCounter_lookup in Hseed.
    destruct (decide (mode (keyOf vpa) ∈ modes)); [ discriminate | done ].
  - split; [ exact Hnone | ]. split; [ exact Hone | ].
    destruct (Observe_series _ _ _ _ _ Hm Hobs Hone)
      as (m' & new & -> & _ & _ & _ & Hser).
    exists m'. split; [ reflexivity | exact Hser ].
Qed.

(** C10. After [n] objects were added to a fresh counter, [n] within the
    range of [int], no bucket is negative and the buckets sum to [n]; and
    the counter, hence what a flush writes, is the same for any other
    sequence of objects with the same keys up to order. *)
Theorem AddAll_census (vpas : list (model.Vpa Q)) :
  Z.of_nat (length vpas) <= GoInt.MaxInt ->
  (forall key v,
     cnt (AddAll vpas NewObjectCounter) !! key = Some v -> 0 <= v)
  /\ total (AddAll vpas NewObjectCounter) = Z.of_nat (length vpas)
  /\ forall vpas',
       keyOf <$> vpas' ≡ₚ keyOf <$> vpas ->
       AddAll vpas' NewObjectCounter = AddAll vpas NewObjectCounter
       /\ forall m r r',
            declared m ->
            Observe (AddAll vpas NewObjectCounter) m r ->
            Observe (AddAll vpas' NewObjectCounter) m r' ->
            exists m1 m2,
              r = Some (AddAll vpas NewObjectCounter, m1)
              /\ r' = Some (AddAll vpas NewObjectCounter, m2)
              /\ prometheus.sets (vpaObjectCount m1)
                 ≡ₚ prometheus.sets (vpaObjectCount m2)
              /\ prometheus.series (vpaObjectCount m1)
                 = prometheus.series (vpaObjectCount m2).
Proof.
  intros Hlen. split; [ | split ].
  - intros key v Hk. rewrite cnt_AddAll_fresh in Hk by assumption.
    destruct (decide _); [ | discriminate ].
    injection Hk as <-. lia.
  - by apply total_AddAll_fresh.
  - intros vpas' Hperm.
    assert (Heq : AddAll vpas' NewObjectCounter
                  = AddAll vpas NewObjectCounter)
      by (by apply AddAll_Permutation).
    split; [ exact Heq | ]. intros m r r' Hm Hobs Hobs'.
    rewrite Heq in Hobs'.
    destruct (Observe_spec _ _ _ Hm Hobs)
      as (m1 & kvs1 & -> & _ & _ & Hp1 & Hsets1 & Hser1).
    destruct (Observe_spec _ _ _ Hm Hobs')
      as (m2 & kvs2 & -> & _ & _ & Hp2 & Hsets2 & Hser2).
    exists m1, m2. split; [ reflexivity | ]. split; [ reflexivity | ].
    split.
    + rewrite Hsets1, Hsets2. apply Permutation_app_head.
      unfold bucketSets. apply fmap_Permutation. by rewrite Hp1, Hp2.
    + by rewrite Hser1, Hser2.
Qed.

End CounterClaims.

(** ** The claims at sample inputs *)

Lemma fresh_counter_flushes_zero_witness :
  let r := flushInOrder NewObjectCounter initial_metrics in
  cnt NewObjectCounter !! {| mode := "Auto"; has := true |} = Some 0
  /\ exists m' new,
       r = Some (NewObjectCounter, m')
       /\ prometheus.sets (vpaObjectCount m')
          = prometheus.sets (vpaObjectCount initial_metrics) ++ new
       /\ length new = (2 * length modes)%nat
       /\ (["Auto"; Sprintf_v true], S754_zero false) ∈ new
       /\ prometheus.series (vpaObjectCount m') !! ["Auto"; Sprintf_v true]
          = Some (S754_zero false).
Proof.
  apply (fresh_counter_flushes_zero "Auto" true initial_metrics).
  - unfold modes. repeat constructor.
  - split; reflexivity.
  - apply Observe_map_to_list.
Defined.

Lemma toFloat64_threshold_witness :
  toFloat64 (memory 10000001) = Float64.of_int 10000001
  /\ toFloat64 (memory 10000000)
     = Float64.mul (Float64.of_int 10000000000) Float64.milli.
Proof.
  split.
  - exact (proj1 (toFloat64_threshold (memory 10000001)) eq_refl).
  - refine (proj2 (toFloat64_threshold (memory 10000000)) _). discriminate.
Defined.

Lemma ObserveVPARecommendation_sets_witness :
  exists m',
    ObserveVPARecommendation autoVpa initial_metrics = Some m'
    /\ prometheus.sets (vpaContainerRecommendations m')
       = recommendationSets autoVpa (sampleContainer "app")
         ++ recommendationSets autoVpa (sampleContainer "sidecar")
    /\ length (prometheus.sets (vpaContainerRecommendations m')) = 12%nat
    /\ vpaObjectCount m' = vpaObjectCount initial_metrics.
Proof.
  destruct (ObserveVPARecommendation_sets autoVpa initial_metrics)
    as (m' & Hrun & Hsets & Hlen & Hcnt).
  - split; reflexivity.
  - exists m'. split; [ exact Hrun | ]. split; [ | split ].
    + rewrite Hsets. reflexivity.
    + rewrite Hlen. reflexivity.
    + exact Hcnt.
Defined.

Lemma ObserveVPARecommendation_total_witness :
  is_Some (ObserveVPARecommendation unsetVpa initial_metrics)
  /\ ObserveVPARecommendation unsetVpa initial_metrics = Some initial_metrics.
Proof.
  destruct (ObserveVPARecommendation_total unsetVpa initial_metrics)
    as [Hsome Hnil].
  - split; reflexivity.
  - split; [ exact Hsome | apply Hnil; reflexivity ].
Defined.

Lemma Add_unset_mode_witness :
  keyOf carriesRecommendation unsetVpa = {| mode := ""; has := false |}
  /\ ("" ∉ modes)
  /\ cnt (Add carriesRecommendation unsetVpa NewObjectCounter)
       !! {| mode := ""; has := false |} = Some 1
  /\ cnt (Add carriesRecommendation unsetVpa NewObjectCounter)
       !! {| mode := "Auto"; has := true |} = Some 0.
Proof.
  destruct (Add_unset_mode carriesRecommendation unsetVpa)
    as (Hkey & Hout & Hcnt).
  - reflexivity.
  - split; [ exact Hkey | ]. split; [ exact Hout | ].
    apply Hcnt. reflexivity.
Defined.

Lemma Observe_read_only_witness :
  exists m1,
    flushInOrder NewObjectCounter initial_metrics
    = Some (NewObjectCounter, m1)
    /\ forall r2, Observe NewObjectCounter m1 r2 ->
         exists m2,
           r2 = Some (NewObjectCounter, m2)
           /\ prometheus.series (vpaObjectCount m2)
              = prometheus.series (vpaObjectCount m1)
           /\ vpaContainerRecommendations m2
              = vpaContainerRecommendations m1.
Proof.
  apply (Observe_read_only NewObjectCounter initial_metrics).
  - split; reflexivity.
  - apply Observe_map_to_list.
Defined.

Lemma Add_same_bucket_witness :
  let key := {| mode := "Auto"; has := true |} in
  let oc := AddAll carriesRecommendation [autoVpa; autoVpa; autoVpa]
              NewObjectCounter in
  (forall key', key' ≠ key -> cnt oc !! key' = cnt NewObjectCounter !! key')
  /\ (exists m',
        flushInOrder oc initial_metrics = Some (oc, m')
        /\ ([autoVpa; autoVpa; autoVpa] ≠ [] \/ mode key ∈ modes ->
            prometheus.series (vpaObjectCount m') !! bucketLabels key
            = Some (Float64.of_int 3))
        /\ (3 <= 2 ^ 53 -> represents (Float64.of_int 3) 3)
        /\ (forall key', key' ≠ key -> mode key' ∈ modes ->
              prometheus.series (vpaObjectCount m') !! bucketLabels key'
              = Some (S754_zero false)))
  /\ (forall oc0 (vpa : model.Vpa Amount),
        GoInt.MinInt <= count oc0 (keyOf carriesRecommendation vpa)
          < GoInt.MaxInt ->
        count (Add carriesRecommendation vpa oc0)
              (keyOf carriesRecommendation vpa)
        = count oc0 (keyOf carriesRecommendation vpa) + 1
        /\ forall key', key' ≠ keyOf carriesRecommendation vpa ->
             cnt (Add carriesRecommendation vpa oc0) !! key'
             = cnt oc0 !! key').
Proof.
  apply (Add_same_bucket carriesRecommendation
           {| mode := "Auto"; has := true |} [autoVpa; autoVpa; autoVpa]
           initial_metrics).
  - repeat constructor.
  - vm_compute. discriminate.
  - split; reflexivity.
  - apply Observe_map_to_list.
Defined.

Lemma Add_creates_bucket_witness :
  let oc := Add carriesRecommendation strangeVpa
              (AddAll carriesRecommendation [autoVpa; unsetVpa]
                 NewObjectCounter) in
  ("Later" ∉ modes)
  /\ cnt (AddAll carriesRecommendation [autoVpa; unsetVpa] NewObjectCounter)
       !! {| mode := "Later"; has := false |} = None
  /\ cnt oc !! {| mode := "Later"; has := false |} = Some 1
  /\ exists m',
       flushInOrder oc initial_metrics = Some (oc, m')
       /\ prometheus.series (vpaObjectCount m') !! ["Later"; "false"]
          = Some (Float64.of_int 1).
Proof.
  apply (Add_creates_bucket carriesRecommendation [autoVpa; unsetVpa]
           strangeVpa initial_metrics).
  - apply not_elem_of_dom. reflexivity.
  - intros Hin. repeat (apply elem_of_cons in Hin as [Heq | Hin];
                        [ discriminate Heq | ]).
    by apply elem_of_nil in Hin.
  - split; reflexivity.
  - apply Observe_map_to_list.
Defined.

Lemma AddAll_census_witness :
  let vpas := [autoVpa; unsetVpa; autoVpa] in
  (forall key v,
     cnt (AddAll carriesRecommendation vpas NewObjectCounter) !! key = Some v
     -> 0 <= v)
  /\ total (AddAll carriesRecommendation vpas NewObjectCounter) = 3
  /\ AddAll carriesRecommendation [unsetVpa; autoVpa; autoVpa]
       NewObjectCounter
     = AddAll carriesRecommendation vpas NewObjectCounter.
Proof.
  destruct (AddAll_census carriesRecommendation
              [autoVpa; unsetVpa; autoVpa]) as (Hpos & Hsum & Horder).
  - vm_compute. discriminate.
  - split; [ exact Hpos | ]. split; [ exact Hsum | ].
    apply (Horder [unsetVpa; autoVpa; autoVpa]).
    apply Permutation_swap.
Defined.

Lemma toFloat64_monotone_witness :
  Float64.leb (toFloat64 (cpu 100)) (toFloat64 (cpu 200)) = true
  /\ Float64.leb (toFloat64 (memory 268435456))
                 (toFloat64 (memory 536870912)) = true.
Proof.
  split.
  - apply (toFloat64_monotone (cpu 100) (cpu 200)).
    + reflexivity.
    + right. split; discriminate.
  - apply (toFloat64_monotone (memory 268435456) (memory 536870912)).
    + reflexivity.
    + left. split; reflexivity.
Defined.

(** ** The conversion at the values of the specification *)

(** The constant is the double nearest to 1/1000. *)
Example milli_nearest :
  Float64.milli = Float64.div (Float64.of_int 1) (Float64.of_int 1000).
Proof. vm_compute. reflexivity. Qed.

(** 100m of CPU converts to 0.1, the double [0x1.999999999999ap-4]. *)
Example toFloat64_100m :
  toFloat64 (cpu 100) = S754_finite false 7205759403792794 (-56).
Proof. vm_compute. reflexivity. Qed.

(** 256Mi of memory converts to 268435456, which is [2 ^ 28]. *)
Example toFloat64_256Mi :
  toFloat64 (memory 268435456) = S754_finite false (2 ^ 52) (-24).
Proof. vm_compute. reflexivity. Qed.

(** A value of exactly 10,000,000 goes through the milli-value and comes
    out as 10,000,000; a value of 20,000,000 is converted as it is. *)
Example toFloat64_boundary :
  toFloat64 (memory 10000000) = Float64.of_int 10000000
  /\ Value (memory 10000000) = 10000000
  /\ toFloat64 (memory 20000000) = Float64.of_int 20000000.
Proof. vm_compute. repeat split. Qed.

(** The first and the last of the twelve values written for the sample
    object. *)
Example ObserveVPARecommendation_autoVpa :
  (m' ← ObserveVPARecommendation autoVpa initial_metrics;
   Some (head (prometheus.sets (vpaContainerRecommendations m')),
         last (prometheus.sets (vpaContainerRecommendations m')),
         length (prometheus.sets (vpaContainerRecommendations m'))))
  = Some (Some (["web"; "default"; "app=web"; "app"; "lower_bound"; "cpu"],
                S754_finite false 7205759403792794 (-56)),
          Some (["web"; "default"; "app=web"; "sidecar"; "upper_bound";
                 "memory"],
                S754_finite false (2 ^ 52) (-22)),
          12%nat).
Proof. vm_compute. reflexivity. Qed.

(** A flush after one object in Auto with a recommendation and one without
    a mode: nine series, the eight seeded ones and that of the empty mode. *)
Example Observe_two_objects :
  (st ← flushInOrder (AddAll carriesRecommendation [autoVpa; unsetVpa]
                        NewObjectCounter) initial_metrics;
   let series := prometheus.series (vpaObjectCount st.2) in
   Some (series !! ["Auto"; "true"], series !! [""; "false"],
         series !! ["Off"; "false"], size series))
  = Some (Some (Float64.of_int 1), Some (Float64.of_int 1),
          Some (S754_zero false), 9%nat).
Proof. vm_compute. reflexivity. Qed.
